(** * kim_property: create / destroy of property instances

    A shallow embedding of [kim_property/create.py] and
    [kim_property/destroy.py].  The module-level dictionaries of
    [create.py] are an explicit [State]; a Python exception is an [error]
    carried next to the state that was current when it was raised. *)

From Stdlib Require Import ZArith List Ascii String Sorting.Sorted Sorting.Permutation.
From stdpp Require Import gmap strings list fin_maps sorting.

Open Scope Z_scope.
Open Scope string_scope.
Open Scope list_scope.

(** ** Values, records, errors *)

(** The decoded KIM-EDN scalars this development covers: [nil], integers
    and strings.  Python's [==] is structural on them.  Floats and
    booleans (for which [1 == 1.0 == True]) and nested containers are left
    out of the universe. *)
Inductive value : Type :=
  | VNil
  | VInt (z : Z)
  | VStr (s : string).

#[global] Instance value_eq_dec : EqDecision value.
Proof. solve_decision. Defined.

(** A decoded property instance, and a decoded property definition, are
    Python dicts with string keys.  Python compares dicts by content, as
    [gmap] equality does. *)
Abbreviation record := (gmap string value).
Abbreviation definition := (gmap string value).

(** Every [raise KIMPropertyError(msg)] of the source is told apart by its
    message; the constructors name the raising site.  [KeyError] and
    [TypeError] are Python's own. *)
Inductive error : Type :=
  | InputTypeError
  | FormatError
  | DuplicateInstanceIdError
  | PreexistingDefinitionError
  | UnknownPropertyError
  | DefinitionInvalidError
  | DecodeError
  | KeyError
  | TypeError.

#[global] Instance error_eq_dec : EqDecision error.
Proof. solve_decision. Defined.

(** ** The module state of [create.py] *)

Record State : Type := mkState {
  kim_properties : gmap string definition;
  property_name_to_property_id : gmap string string;
  property_id_to_property_name : gmap string string;
  new_property_ids : option (list string)
}.

#[global] Instance State_eq_dec : EqDecision State.
Proof. solve_decision. Defined.

(** ** Exceptions over state *)

Definition M (A : Type) : Type := State -> (error + A) * State.

Definition ret {A} (a : A) : M A := fun st => (inr a, st).
Definition raise {A} (e : error) : M A := fun st => (inl e, st).
Definition bind {A B} (m : M A) (k : A -> M B) : M B :=
  fun st => match m st with
            | (inl e, st') => (inl e, st')
            | (inr a, st') => k a st'
            end.
Definition get : M State := fun st => (inr st, st).

Notation "x <-- m ;; k" := (bind m (fun x => k))
  (at level 100, m at next level, right associativity).
Notation "m ;;; k" := (bind m (fun _ => k))
  (at level 100, right associativity).

Definition modify (f : State -> State) : M unit := fun st => (inr tt, f st).

(** ** External collaborators

    [kim_edn], [os.path.isfile], and the helpers imported from
    [.definition] and [.instance] are not part of the two modules embedded
    here; the operations take them as an environment.  [None] from
    [kim_edn_loads] / [kim_edn_load] stands for the decoder raising, and
    [false] from the two checkers for the checker raising.
    [kim_edn_loads] is taken to return a sequence of dicts: a text that
    decodes to anything else (the source then raises at a subscript or at
    the [append] of line 218, or encodes the value back) is not covered.
    [get_property_id_path], which the source applies to an id that
    [check_property_definition] has accepted, is taken to return its
    short name.
    The result of [unpickle_kim_properties] (create.py, line 33) is the
    [State] the first operation is run in. *)
Record Env : Type := mkEnv {
  kim_edn_loads : string -> option (list record);
  kim_edn_dumps : list record -> string;
  isfile : string -> bool;
  kim_edn_load : string -> option definition;
  check_property_definition : definition -> bool;
  check_instance_id_format : Z -> bool;
  get_property_id_path : string -> string
}.

(** ** [get_properties] (create.py, lines 39-46) *)

Definition get_properties : M (gmap string definition) :=
  st <-- get ;; ret (kim_properties st).

(** ** [unset_property_id] (create.py, lines 49-70) *)

(** [list.remove(x)]: drop the first element equal to [x]. *)
Fixpoint py_remove {A} `{EqDecision A} (x : A) (l : list A) : list A :=
  match l with
  | [] => []
  | y :: l' => if decide (x = y) then l' else y :: py_remove x l'
  end.

(** [del d[k]] on each of the three dictionaries; [KeyError] when the key
    is absent. *)
Definition del_kim_properties (k : string) : M unit := fun st =>
  match kim_properties st !! k with
  | None => (inl KeyError, st)
  | Some _ =>
      (inr tt, mkState (delete k (kim_properties st))
                       (property_name_to_property_id st)
                       (property_id_to_property_name st)
                       (new_property_ids st))
  end.

Definition del_property_name_to_property_id (k : string) : M unit := fun st =>
  match property_name_to_property_id st !! k with
  | None => (inl KeyError, st)
  | Some _ =>
      (inr tt, mkState (kim_properties st)
                       (delete k (property_name_to_property_id st))
                       (property_id_to_property_name st)
                       (new_property_ids st))
  end.

Definition del_property_id_to_property_name (k : string) : M unit := fun st =>
  match property_id_to_property_name st !! k with
  | None => (inl KeyError, st)
  | Some _ =>
      (inr tt, mkState (kim_properties st)
                       (property_name_to_property_id st)
                       (delete k (property_id_to_property_name st))
                       (new_property_ids st))
  end.

(** [property_id_to_property_name[k]]. *)
Definition get_property_id_to_property_name (k : string) : M string := fun st =>
  match property_id_to_property_name st !! k with
  | None => (inl KeyError, st)
  | Some n => (inr n, st)
  end.

Definition set_new_property_ids (o : option (list string)) : M unit :=
  modify (fun st => mkState (kim_properties st)
                            (property_name_to_property_id st)
                            (property_id_to_property_name st) o).

(** The argument is whatever the caller read from a record, hence a
    [value]; only a string can be [in] the list of new ids. *)
Definition unset_property_id (property_id : value) : M unit :=
  st <-- get ;;
  match new_property_ids st with
  | None => ret tt
  | Some ids =>
      match property_id with
      | VStr pid =>
          if bool_decide (pid ∈ ids) then
            del_kim_properties pid ;;;
            _name <-- get_property_id_to_property_name pid ;;
            del_property_name_to_property_id _name ;;;
            del_property_id_to_property_name pid ;;;
            let ids' := py_remove pid ids in
            set_new_property_ids (Some ids') ;;;
            if decide (length ids' = 0%nat) then set_new_property_ids None
            else ret tt
          else ret tt
      | _ => ret tt
      end
  end.

(** ** [kim_property_create] (create.py, lines 73-226) *)

(** The loop of lines 144-149: every record is asked for its
    ["instance-id"], in order, until one equals [instance_id]. *)
Fixpoint check_repeat (instance_id : value) (l : list record) : M unit :=
  match l with
  | [] => ret tt
  | a_property_instance :: l' =>
      match a_property_instance !! "instance-id" with
      | None => raise KeyError
      | Some v =>
          if decide (instance_id = v) then raise DuplicateInstanceIdError
          else check_repeat instance_id l'
      end
  end.

(** Python's [<] on the scalars of [value]: integers among themselves,
    strings among themselves (by code unit), [TypeError] ([None] here)
    otherwise.  The numbers that Python orders against an integer without
    error (floats, booleans) are not in [value]; statements about keys
    that cannot be ordered name strings and [nil]. *)
Definition py_lt (a b : value) : option bool :=
  match a, b with
  | VInt x, VInt y => Some (x <? y)%Z
  | VStr x, VStr y => Some (String.ltb x y)
  | _, _ => None
  end.

(** [sorted(l, key=lambda i: i["instance-id"])].  The keys are computed
    first, for every element; the sort is stable and uses [<] only.  Its
    result, and whether it raises [TypeError], do not depend on the
    sorting algorithm (with two keys or more, a key that cannot be
    compared with another is met by any algorithm); a stable insertion
    sort stands for it. *)
Fixpoint keyed (l : list record) : error + list (value * record) :=
  match l with
  | [] => inr []
  | i :: l' =>
      match i !! "instance-id" with
      | None => inl KeyError
      | Some k =>
          match keyed l' with
          | inl e => inl e
          | inr kl => inr ((k, i) :: kl)
          end
      end
  end.

Fixpoint insert_by_key (x : value * record) (l : list (value * record))
  : error + list (value * record) :=
  match l with
  | [] => inr [x]
  | y :: l' =>
      match py_lt y.1 x.1 with
      | None => inl TypeError
      | Some true =>
          match insert_by_key x l' with
          | inl e => inl e
          | inr r => inr (y :: r)
          end
      | Some false => inr (x :: y :: l')
      end
  end.

Fixpoint sort_keyed (l : list (value * record)) : error + list (value * record) :=
  match l with
  | [] => inr []
  | x :: l' =>
      match sort_keyed l' with
      | inl e => inl e
      | inr s => insert_by_key x s
      end
  end.

Definition sorted_by_instance_id (l : list record) : error + list record :=
  match keyed l with
  | inl e => inl e
  | inr kl =>
      match sort_keyed kl with
      | inl e => inl e
      | inr s => inr (s.*2)
      end
  end.

Definition lift {A} (r : error + A) : M A := fun st => (r, st).

(** Lines 160-199: the branch taken when [property_name] is a file.  A
    definition accepted by [check_property_definition] carries a string
    ["property-id"]; the embedding stops with [KeyError] / [TypeError]
    where it does not. *)
Definition register_from_file (env : Env) (property_name : string) : M string :=
  match kim_edn_load env property_name with
  | None => raise DecodeError
  | Some pd =>
      if negb (check_property_definition env pd) then raise DefinitionInvalidError
      else
        match pd !! "property-id" with
        | None => raise KeyError
        | Some (VStr _property_id) =>
            st <-- get ;;
            if bool_decide (is_Some (kim_properties st !! _property_id)) then
              raise PreexistingDefinitionError
            else
              modify (fun st => mkState (<[_property_id := pd]> (kim_properties st))
                                        (property_name_to_property_id st)
                                        (property_id_to_property_name st)
                                        (new_property_ids st)) ;;;
              let _property_name := get_property_id_path env _property_id in
              modify (fun st => mkState (kim_properties st)
                                        (<[_property_name := _property_id]>
                                           (property_name_to_property_id st))
                                        (property_id_to_property_name st)
                                        (new_property_ids st)) ;;;
              modify (fun st => mkState (kim_properties st)
                                        (property_name_to_property_id st)
                                        (<[_property_id := _property_name]>
                                           (property_id_to_property_name st))
                                        (new_property_ids st)) ;;;
              st <-- get ;;
              set_new_property_ids
                (Some (default [] (new_property_ids st) ++ [_property_id])) ;;;
              ret _property_id
        | Some _ => raise TypeError
        end
  end.

(** Lines 138-149: the collection to extend. *)
Definition open_collection (env : Env) (instance_id : value)
    (property_instances : option string) : M (list record) :=
  match property_instances with
  | None => ret []
  | Some text =>
      match kim_edn_loads env text with
      | None => raise DecodeError
      | Some kim_property_instances =>
          check_repeat instance_id kim_property_instances ;;;
          ret kim_property_instances
      end
  end.

(** Lines 151-213: the property id of the new instance.  The two lists of
    keys are built before the file test, as in the source; the [append]s
    to them in the file branch are never read again and are left out. *)
Definition resolve_property (env : Env) (property_name : string) : M string :=
  st <-- get ;;
  let kim_property_names := (map_to_list (property_name_to_property_id st)).*1 in
  let kim_property_ids := (map_to_list (property_id_to_property_name st)).*1 in
  if isfile env property_name then register_from_file env property_name
  else if bool_decide (property_name ∈ kim_property_names) then
    match property_name_to_property_id st !! property_name with
    | Some property_id => ret property_id
    | None => raise KeyError
    end
  else if bool_decide (property_name ∈ kim_property_ids) then ret property_name
  else raise UnknownPropertyError.

(** The dict built on lines 157, 199-204 and 215. *)
Definition new_property_instance (property_id : string) (instance_id : value) : record :=
  <["instance-id" := instance_id]> (<["property-id" := VStr property_id]> ∅).

(** Lines 215-226: append, sort when there are several, encode. *)
Definition append_instance (env : Env) (instance_id : value) (property_id : string)
    (kim_property_instances : list record) : M string :=
  let kim_property_instances :=
    kim_property_instances ++ [new_property_instance property_id instance_id] in
  kim_property_instances <--
    (if decide (1 < length kim_property_instances)%nat
     then lift (sorted_by_instance_id kim_property_instances)
     else ret kim_property_instances) ;;
  ret (kim_edn_dumps env kim_property_instances).

(** [instance_id] and [property_name] are arbitrary Python values;
    [property_instances] is [None] or a text. *)
Definition kim_property_create (env : Env) (instance_id property_name : value)
    (property_instances : option string) : M string :=
  match instance_id with
  | VInt z =>
      if negb (check_instance_id_format env z) then raise FormatError
      else
        match property_name with
        | VStr pname =>
            kim_property_instances <-- open_collection env instance_id property_instances ;;
            property_id <-- resolve_property env pname ;;
            append_instance env instance_id property_id kim_property_instances
        | _ => raise InputTypeError
        end
  | _ => raise InputTypeError
  end.

(** ** [kim_property_destroy] (destroy.py, lines 17-64) *)

(** The [for] loop of lines 57-61.  Python's list iterator is an index
    into the list being mutated: each turn reads [l[i]] from the current
    list and stops when [i] is past its end; [remove] takes out the first
    element equal to the current one.  [fuel] bounds the number of turns;
    [length l] turns always suffice ([destroy_loop_fuel]). *)
Fixpoint destroy_loop (fuel : nat) (instance_id : value) (i : nat)
    (kim_property_instances : list record) : M (list record) :=
  match fuel with
  | O => ret kim_property_instances
  | S fuel' =>
      match kim_property_instances !! i with
      | None => ret kim_property_instances
      | Some a_property_instance =>
          match a_property_instance !! "instance-id" with
          | None => raise KeyError
          | Some v =>
              if decide (instance_id = v) then
                match a_property_instance !! "property-id" with
                | None => raise KeyError
                | Some property_id =>
                    unset_property_id property_id ;;;
                    destroy_loop fuel' instance_id (S i)
                      (py_remove a_property_instance kim_property_instances)
                end
              else destroy_loop fuel' instance_id (S i) kim_property_instances
          end
      end
  end.

Definition kim_property_destroy (env : Env) (property_instances : option string)
    (instance_id : value) : M string :=
  match instance_id with
  | VInt _ =>
      match property_instances with
      | None => ret "[]"
      | Some text =>
          if bool_decide (text = "None") || bool_decide (text = "")
             || bool_decide (text = "[]")
          then ret "[]"
          else
            match kim_edn_loads env text with
            | None => raise DecodeError
            | Some kim_property_instances =>
                kim_property_instances <--
                  destroy_loop (length kim_property_instances) instance_id 0
                    kim_property_instances ;;
                ret (kim_edn_dumps env kim_property_instances)
            end
      end
  | _ => raise InputTypeError
  end.

(** ** Vocabulary of the statements *)

(** [property_instances] is absent, or is a text that decodes to [C]. *)
Definition opens (env : Env) (property_instances : option string) (C : list record) : Prop :=
  match property_instances with
  | None => C = []
  | Some text => kim_edn_loads env text = Some C
  end.

(** Every record of [C] has an ["instance-id"], none equal to [v]. *)
Definition no_repeat (v : value) (C : list record) : Prop :=
  Forall (fun r => exists w, r !! "instance-id" = Some w /\ w <> v) C.

(** Resolution of a reference that is no file, in the words of the
    specification: a known short name stands for its id, a known id for
    itself. *)
Definition known_reference (st : State) (p : string) : option string :=
  match property_name_to_property_id st !! p with
  | Some property_id => Some property_id
  | None =>
      match property_id_to_property_name st !! p with
      | Some _ => Some p
      | None => None
      end
  end.

(** Ascending order of two records by integer ["instance-id"]. *)
Definition instance_id_le (r1 r2 : record) : Prop :=
  exists a b, r1 !! "instance-id" = Some (VInt a)
           /\ r2 !! "instance-id" = Some (VInt b) /\ (a <= b)%Z.

(** Keys paired with their records, as [keyed] builds them. *)
Definition int_key (x : value * record) : Prop := exists a, x.1 = VInt a.

Definition key_le (x y : value * record) : Prop :=
  exists a b, x.1 = VInt a /\ y.1 = VInt b /\ (a <= b)%Z.

Definition key_of_record (x : value * record) : Prop :=
  x.2 !! "instance-id" = Some x.1.

(** ** The registry invariants *)

(** Membership in the dynamic set. *)
Definition dynamic (st : State) (property_id : string) : Prop :=
  exists ids, new_property_ids st = Some ids /\ property_id ∈ ids.

(** The two indices are inverse of each other and the id index has the
    keys of the registry. *)
Record registry_consistent (st : State) : Prop := {
  ids_registered : forall i,
    is_Some (property_id_to_property_name st !! i) <-> is_Some (kim_properties st !! i);
  indices_inverse : forall n i,
    property_name_to_property_id st !! n = Some i <->
    property_id_to_property_name st !! i = Some n
}.

(** The dynamic ids are registered and listed once. *)
Record dynamic_wf (st : State) : Prop := {
  dynamic_registered : forall i, dynamic st i -> is_Some (kim_properties st !! i);
  dynamic_nodup : forall ids, new_property_ids st = Some ids -> NoDup ids
}.

(** The state [unset_property_id] leaves when it removes [pid], whose
    short name is [n], from a dynamic list [ids]. *)
Definition unset_state (st : State) (pid n : string) (ids : list string) : State :=
  mkState (delete pid (kim_properties st))
          (delete n (property_name_to_property_id st))
          (delete pid (property_id_to_property_name st))
          (if decide (length (py_remove pid ids) = 0%nat) then None
           else Some (py_remove pid ids)).

(** The short name of the definition that a call with the reference [p]
    registers is free in the name index.  A definition is registered
    when [p] is a file, the definition it holds is accepted by
    [check_property_definition] and its id is not in the registry; a
    reference that registers nothing is under no condition. *)
Definition no_name_collision (env : Env) (st : State) (p : string) : Prop :=
  forall pd pid,
    isfile env p = true ->
    kim_edn_load env p = Some pd ->
    check_property_definition env pd = true ->
    pd !! "property-id" = Some (VStr pid) ->
    kim_properties st !! pid = None ->
    property_name_to_property_id st !! get_property_id_path env pid = None.

(** The state [register_from_file] leaves when it registers [pd]. *)
Definition registered_state (env : Env) (st : State) (pid : string) (pd : definition) : State :=
  mkState (<[pid := pd]> (kim_properties st))
          (<[get_property_id_path env pid := pid]> (property_name_to_property_id st))
          (<[pid := get_property_id_path env pid]> (property_id_to_property_name st))
          (Some (default [] (new_property_ids st) ++ [pid])).

(** ** Vocabulary of the further properties *)

(** The test of lines 48-51 of destroy.py on a text. *)
Definition empty_sentinel (text : string) : bool :=
  bool_decide (text = "None") || bool_decide (text = "") || bool_decide (text = "[]").

(** The instance ids of a collection, in order. *)
Definition instance_ids (l : list record) : list (option value) :=
  (fun r => r !! "instance-id") <$> l.

(** Strictly ascending order of two records by integer ["instance-id"]. *)
Definition instance_id_lt (r1 r2 : record) : Prop :=
  exists a b, r1 !! "instance-id" = Some (VInt a)
           /\ r2 !! "instance-id" = Some (VInt b) /\ (a < b)%Z.

(** Every record carries an integer ["instance-id"]. *)
Definition integer_ids (l : list record) : Prop :=
  Forall (fun r => exists a, r !! "instance-id" = Some (VInt a)) l.

(** The list of new ids is [None] rather than empty. *)
Definition dynamic_list_ok (st : State) : Prop := new_property_ids st <> Some [].

(** The state [unset_property_id] leaves when it raises after its first
    [del]. *)
Definition half_unset_state (st : State) (pid : string) : State :=
  mkState (delete pid (kim_properties st))
          (property_name_to_property_id st)
          (property_id_to_property_name st)
          (new_property_ids st).

(** ** A concrete environment

    Used to run the operations on explicit inputs. *)
Module Ref.

(** Modelled from the spec: [get_property_id_path] of [.instance] is not
    among the embedded modules.  The short name is the part of an
    identifier of the shape [<scheme>:<contact>,<date>:property/<name>]
    after its last slash. *)
Fixpoint last_segment (cur s : string) : string :=
  match s with
  | EmptyString => cur
  | String c s' =>
      if Ascii.eqb c "/"%char then last_segment EmptyString s'
      else last_segment (cur +:+ String c EmptyString) s'
  end.

Definition get_property_id_path (property_id : string) : string :=
  last_segment EmptyString property_id.

(** Modelled from the spec: [check_instance_id_format] of [.instance]
    accepts the positive integers. *)
Definition check_instance_id_format (z : Z) : bool := (1 <=? z)%Z.

(** Modelled from the spec: [check_property_definition] of [.definition]
    is a structural check of the definition alone; here, that it carries a
    string ["property-id"]. *)
Definition check_property_definition (pd : definition) : bool :=
  match pd !! "property-id" with
  | Some (VStr _) => true
  | _ => false
  end.

(** A codec that round-trips: a collection is written as a ["1"] and
    the binary digits of its [Countable] code, the empty one as ["[]"]. *)
#[global] Instance value_countable : Countable value.
Proof.
  refine (inj_countable'
    (fun v => match v with
              | VNil => inl tt
              | VInt z => inr (inl z)
              | VStr s => inr (inr s)
              end)
    (fun x => match x with
              | inl _ => VNil
              | inr (inl z) => VInt z
              | inr (inr s) => VStr s
              end) _).
  by intros [].
Defined.

Fixpoint pos_to_bits (p : positive) : string :=
  match p with
  | xH => EmptyString
  | xO p' => String "0"%char (pos_to_bits p')
  | xI p' => String "1"%char (pos_to_bits p')
  end.

Fixpoint bits_to_pos (s : string) : option positive :=
  match s with
  | EmptyString => Some xH
  | String c s' =>
      if Ascii.eqb c "0"%char then xO <$> bits_to_pos s'
      else if Ascii.eqb c "1"%char then xI <$> bits_to_pos s'
      else None
  end.

Definition dumps (l : list record) : string :=
  match l with
  | [] => "[]"
  | _ => String "1"%char (pos_to_bits (encode l))
  end.

Definition loads (s : string) : option (list record) :=
  if bool_decide (s = "[]") then Some []
  else match s with
       | String c s' =>
           if Ascii.eqb c "1"%char then
             match bits_to_pos s' with
             | Some p => decode p
             | None => None
             end
           else None
       | EmptyString => None
       end.

(** The two definitions named in the docstring of [kim_property_create]
    make the baseline. *)
Definition cohesive_id : string :=
  "tag:staff@noreply.openkim.org,2014-04-15:property/cohesive-energy-relation-cubic-crystal".
Definition atomic_mass_id : string :=
  "tag:brunnels@noreply.openkim.org,2016-05-11:property/atomic-mass".

Definition def_of (property_id : string) : definition :=
  <["property-id" := VStr property_id]> ∅.

Definition baseline : State :=
  mkState
    (<[atomic_mass_id := def_of atomic_mass_id]>
       (<[cohesive_id := def_of cohesive_id]> ∅))
    (<["atomic-mass" := atomic_mass_id]>
       (<["cohesive-energy-relation-cubic-crystal" := cohesive_id]> ∅))
    (<[atomic_mass_id := "atomic-mass"]>
       (<[cohesive_id := "cohesive-energy-relation-cubic-crystal"]> ∅))
    None.

(** The files of the working directory. *)
Definition volume_id : string := "tag:user@example.org,2020-01-01:property/unit-cell-volume".
Definition other_mass_id : string := "tag:user@example.org,2020-01-01:property/atomic-mass".
Definition foo_a_id : string := "tag:a@example.org,2020-01-01:property/foo".
Definition foo_b_id : string := "tag:b@example.org,2021-01-01:property/foo".

Definition files : gmap string definition :=
  <["volume.edn" := def_of volume_id]>
  (<["other-mass.edn" := def_of other_mass_id]>
  (<["foo-a.edn" := def_of foo_a_id]>
  (<["foo-b.edn" := def_of foo_b_id]>
  (<["known.edn" := def_of atomic_mass_id]> ∅)))).

Definition env_with (files : gmap string definition) : Env :=
  mkEnv loads dumps
        (fun p => bool_decide (is_Some (files !! p)))
        (fun p => files !! p)
        check_property_definition
        check_instance_id_format
        get_property_id_path.

Definition env : Env := env_with files.

(** The same with one more file, named as a short name of the baseline. *)
Definition env_shadowed : Env :=
  env_with (<["atomic-mass" := def_of volume_id]> files).

End Ref.

(** ** Concrete inputs *)

Module Ex.

(** The collections of the docstrings, and two that break the uniqueness
    of instance ids. *)
Definition cohesive_1 : record := new_property_instance Ref.cohesive_id (VInt 1).
Definition atomic_mass_1 : record := new_property_instance Ref.atomic_mass_id (VInt 1).
Definition atomic_mass_2 : record := new_property_instance Ref.atomic_mass_id (VInt 2).
Definition cohesive_3 : record := new_property_instance Ref.cohesive_id (VInt 3).
Definition volume_1 : record := new_property_instance Ref.volume_id (VInt 1).

Definition foo_a_1 : record := new_property_instance Ref.foo_a_id (VInt 1).
Definition foo_b_2 : record := new_property_instance Ref.foo_b_id (VInt 2).

(** Two definitions with different ids and the same short name ["foo"]
    are registered from their files; the instance of the first one is
    then destroyed. *)
Definition st_foo_a : State :=
  (kim_property_create Ref.env (VInt 1) (VStr "foo-a.edn") None Ref.baseline).2.
Definition st_foo_ab : State :=
  (kim_property_create Ref.env (VInt 2) (VStr "foo-b.edn")
     (Some (Ref.dumps [foo_a_1])) st_foo_a).2.
Definition st_foo_b : State :=
  (kim_property_destroy Ref.env (Some (Ref.dumps [foo_a_1; foo_b_2])) (VInt 1) st_foo_ab).2.

Definition other_mass_1 : record := new_property_instance Ref.other_mass_id (VInt 1).

(** A definition whose id is new and whose short name is the one of a
    baseline definition is registered from its file. *)
Definition st_other_mass : State :=
  (kim_property_create Ref.env (VInt 1) (VStr "other-mass.edn") None Ref.baseline).2.

(** A record whose instance id is a string, and collections for the
    further properties. *)
Definition string_id : record :=
  <["instance-id" := VStr "a"]> (<["property-id" := VStr Ref.cohesive_id]> ∅).
Definition volume_2 : record := new_property_instance Ref.volume_id (VInt 2).
Definition st_volume : State :=
  registered_state Ref.env Ref.baseline Ref.volume_id (Ref.def_of Ref.volume_id).
Definition volume_3 : record := new_property_instance Ref.volume_id (VInt 3).

End Ex.

(** * Properties *)

(** ** The keys of a dictionary *)

Lemma elem_of_keys {V} (m : gmap string V) (k : string) :
  k ∈ (map_to_list m).*1 <-> is_Some (m !! k).
Proof.
  rewrite list_elem_of_fmap. split.
  - intros [[k' v] [-> Hin]]. apply elem_of_map_to_list in Hin. simpl. eauto.
  - intros [v Hv]. exists (k, v). split; [done|]. by apply elem_of_map_to_list.
Qed.

(** ** The duplicate check *)

Lemma check_repeat_state v C st : (check_repeat v C st).2 = st.
Proof.
  induction C as [|a C IH]; simpl; [done|].
  destruct (a !! "instance-id") as [w|]; [|done].
  destruct (decide (v = w)); [done|]. apply IH.
Qed.

Lemma check_repeat_pass v C st :
  no_repeat v C -> check_repeat v C st = (inr tt, st).
Proof.
  induction 1 as [|a C (w & Hw & Hne) _ IH]; simpl; [done|].
  rewrite Hw. destruct (decide (v = w)); [congruence|]. apply IH.
Qed.

Lemma check_repeat_found v C st :
  Forall (fun r => is_Some (r !! "instance-id")) C ->
  (exists r, r ∈ C /\ r !! "instance-id" = Some v) ->
  check_repeat v C st = (inl DuplicateInstanceIdError, st).
Proof.
  induction 1 as [|a C [w Hw] _ IH]; intros (r & Hin & Hr).
  - by apply elem_of_nil in Hin.
  - simpl. rewrite Hw. destruct (decide (v = w)) as [|Hne]; [done|].
    apply IH. apply elem_of_cons in Hin as [->|Hin]; [congruence|eauto].
Qed.

Lemma open_collection_pass env v pi C st :
  opens env pi C -> no_repeat v C ->
  open_collection env v pi st = (inr C, st).
Proof.
  intros Ho Hn. destruct pi as [text|]; simpl in *.
  - rewrite Ho. unfold bind. by rewrite check_repeat_pass.
  - by subst.
Qed.

Lemma open_collection_state env v pi st : (open_collection env v pi st).2 = st.
Proof.
  destruct pi as [text|]; simpl; [|done].
  destruct (kim_edn_loads env text) as [l|]; [|done].
  unfold bind. pose proof (check_repeat_state v l st) as H.
  destruct (check_repeat v l st) as [[e|[]] st']; simpl in *; by subst.
Qed.

Lemma open_collection_inv env v pi st C st' :
  open_collection env v pi st = (inr C, st') ->
  opens env pi C /\ st' = st.
Proof.
  intros H. pose proof (open_collection_state env v pi st) as Hs.
  rewrite H in Hs. simpl in Hs. split; [|done].
  destruct pi as [text|]; simpl in *.
  - destruct (kim_edn_loads env text) as [l|]; [|done].
    unfold bind in H. destruct (check_repeat v l st) as [[e|[]] st'']; [done|].
    unfold ret in H. congruence.
  - unfold ret in H. congruence.
Qed.

(** ** Resolution of the property reference *)

Lemma register_preexisting env p pd property_id st :
  kim_edn_load env p = Some pd ->
  check_property_definition env pd = true ->
  pd !! "property-id" = Some (VStr property_id) ->
  is_Some (kim_properties st !! property_id) ->
  register_from_file env p st = (inl PreexistingDefinitionError, st).
Proof.
  intros Hl Hc Hid Hin. unfold register_from_file.
  rewrite Hl, Hc, Hid. simpl. unfold bind, get.
  by rewrite bool_decide_eq_true_2.
Qed.

Lemma resolve_file env p st :
  isfile env p = true ->
  resolve_property env p st = register_from_file env p st.
Proof. intros H. unfold resolve_property, bind, get. by rewrite H. Qed.

Lemma resolve_name env p property_id st :
  isfile env p = false ->
  property_name_to_property_id st !! p = Some property_id ->
  resolve_property env p st = (inr property_id, st).
Proof.
  intros Hf Hn. unfold resolve_property, bind, get. rewrite Hf.
  rewrite bool_decide_eq_true_2 by (apply elem_of_keys; eauto).
  by rewrite Hn.
Qed.

Lemma resolve_id env p st :
  isfile env p = false ->
  property_name_to_property_id st !! p = None ->
  is_Some (property_id_to_property_name st !! p) ->
  resolve_property env p st = (inr p, st).
Proof.
  intros Hf Hn Hi. unfold resolve_property, bind, get. rewrite Hf.
  rewrite bool_decide_eq_false_2.
  2:{ rewrite elem_of_keys, Hn. by intros [? ?]. }
  by rewrite bool_decide_eq_true_2 by (by apply elem_of_keys).
Qed.


Lemma resolve_known env p property_id st :
  isfile env p = false ->
  known_reference st p = Some property_id ->
  resolve_property env p st = (inr property_id, st).
Proof.
  intros Hf. unfold known_reference.
  destruct (property_name_to_property_id st !! p) as [q|] eqn:Hn.
  - intros [= <-]. by apply resolve_name.
  - destruct (property_id_to_property_name st !! p) as [n|] eqn:Hi; [|done].
    intros [= <-]. apply resolve_id; eauto.
Qed.

(** What [kim_property_create] does once its arguments have passed the
    type and format checks and the collection is open. *)
Lemma create_unfold env z p pi C st :
  check_instance_id_format env z = true ->
  opens env pi C -> no_repeat (VInt z) C ->
  kim_property_create env (VInt z) (VStr p) pi st =
  (property_id <-- resolve_property env p ;;
   append_instance env (VInt z) property_id C) st.
Proof.
  intros Hz Ho Hn. unfold kim_property_create. rewrite Hz. simpl.
  unfold bind at 1. by rewrite (open_collection_pass _ _ _ C).
Qed.

(** ** The sort *)

Lemma keyed_inv l kl :
  keyed l = inr kl -> kl.*2 = l /\ Forall key_of_record kl.
Proof.
  revert kl. induction l as [|i l IH]; simpl; intros kl H.
  - injection H as <-. by split.
  - destruct (i !! "instance-id") as [k|] eqn:Hk; [|done].
    destruct (keyed l) as [e|kl']; [done|]. injection H as <-.
    destruct (IH kl' eq_refl) as [<- HF]. split; [done|].
    constructor; [exact Hk | exact HF].
Qed.

Lemma keyed_total l :
  Forall (fun r => is_Some (r !! "instance-id")) l -> exists kl, keyed l = inr kl.
Proof.
  induction 1 as [|i l [k Hk] _ [kl IH]]; simpl; [eauto|].
  rewrite Hk, IH. eauto.
Qed.

Lemma insert_by_key_perm x l r :
  insert_by_key x l = inr r -> r ≡ₚ x :: l.
Proof.
  revert r. induction l as [|y l IH]; simpl; intros r H.
  - by injection H as <-.
  - destruct (py_lt y.1 x.1) as [[]|]; [| |done].
    + destruct (insert_by_key x l) as [e|r']; [done|]. injection H as <-.
      rewrite (IH r' eq_refl). apply Permutation_swap.
    + by injection H as <-.
Qed.

Lemma sort_keyed_perm l s : sort_keyed l = inr s -> s ≡ₚ l.
Proof.
  revert s. induction l as [|x l IH]; simpl; intros s H.
  - by injection H as <-.
  - destruct (sort_keyed l) as [e|s']; [done|].
    rewrite (insert_by_key_perm _ _ _ H). by rewrite (IH s' eq_refl).
Qed.

(** One integer key among the elements of a sort that succeeds makes
    every key an integer: each element is compared with another one. *)
Lemma py_lt_int_l a v : is_Some (py_lt (VInt a) v) -> exists b, v = VInt b.
Proof. destruct v; simpl; intros [? ?]; try done. eauto. Qed.

Lemma py_lt_int_r a v : is_Some (py_lt v (VInt a)) -> exists b, v = VInt b.
Proof. destruct v; simpl; intros [? ?]; try done. eauto. Qed.

Lemma insert_by_key_head x y l r :
  insert_by_key x (y :: l) = inr r -> is_Some (py_lt y.1 x.1).
Proof. simpl. destruct (py_lt y.1 x.1); [eauto|done]. Qed.

Lemma sort_keyed_int_keys l s :
  sort_keyed l = inr s -> Exists int_key l -> Forall int_key l.
Proof.
  revert s. induction l as [|x l IH]; simpl; intros s H Hex; [constructor|].
  destruct (sort_keyed l) as [e|s'] eqn:Hs; [done|].
  specialize (IH s' eq_refl).
  pose proof (sort_keyed_perm _ _ Hs) as Hp.
  destruct s' as [|y s'].
  - apply Permutation_nil_l in Hp. subst l.
    apply Exists_cons in Hex as [Hx|Hx]; [by repeat constructor|].
    by apply Exists_nil in Hx.
  - apply insert_by_key_head in H.
    assert (Hy : y ∈ l) by (rewrite <- Hp; left).
    apply Exists_cons in Hex as [[a Hx]|Hex].
    + rewrite Hx in H. apply py_lt_int_r in H as [b Hb].
      constructor; [by exists a|]. apply IH.
      apply Exists_exists. exists y. split; [done|by exists b].
    + specialize (IH Hex). constructor; [|done].
      rewrite Forall_forall in IH. destruct (IH y Hy) as [b Hb].
      rewrite Hb in H. apply py_lt_int_l in H as [a Ha]. by exists a.
Qed.

Lemma insert_by_key_sorted x l r :
  int_key x -> Forall int_key l -> Sorted key_le l ->
  insert_by_key x l = inr r -> Sorted key_le r.
Proof.
  intros [a Ha] HF. revert r.
  induction l as [|y l IH]; simpl; intros r HS H.
  - injection H as <-. by repeat constructor.
  - apply Forall_cons in HF as [[b Hb] HF].
    apply Sorted_inv in HS as [HS Hhd].
    rewrite Ha, Hb in H. simpl in H.
    destruct (Z.ltb_spec b a) as [Hlt|Hge].
    + destruct (insert_by_key x l) as [e|r'] eqn:Hins; [done|].
      injection H as <-. specialize (IH HF r' HS eq_refl).
      constructor; [done|].
      destruct l as [|y' l'].
      * simpl in Hins. injection Hins as <-. constructor.
        exists b, a. repeat split; [done|done|lia].
      * simpl in Hins. apply HdRel_inv in Hhd.
        destruct (py_lt y'.1 x.1) as [[]|]; [| |done].
        -- destruct (insert_by_key x l'); [done|].
           injection Hins as <-. by constructor.
        -- injection Hins as <-. constructor.
           exists b, a. repeat split; [done|done|lia].
    + injection H as <-. constructor.
      * constructor; [done|done].
      * constructor. exists a, b. by repeat split.
Qed.

Lemma sort_keyed_sorted l s :
  Forall int_key l -> sort_keyed l = inr s -> Sorted key_le s.
Proof.
  revert s. induction l as [|x l IH]; simpl; intros s HF H.
  - injection H as <-. constructor.
  - apply Forall_cons in HF as [Hx HF].
    destruct (sort_keyed l) as [e|s'] eqn:Hs; [done|].
    eapply insert_by_key_sorted; [exact Hx| |by apply IH|exact H].
    by rewrite (sort_keyed_perm _ _ Hs).
Qed.

Lemma sort_keyed_total l :
  Forall int_key l -> exists s, sort_keyed l = inr s.
Proof.
  induction 1 as [|x l [a Ha] HF [s IH]]; simpl; [eauto|].
  rewrite IH.
  assert (HFs : Forall int_key s) by (by rewrite (sort_keyed_perm _ _ IH)).
  clear IH HF. induction s as [|y s IHs]; simpl; [eauto|].
  apply Forall_cons in HFs as [[b Hb] HFs]. rewrite Ha, Hb. simpl.
  destruct (b <? a)%Z; [|eauto].
  destruct (IHs HFs) as [r ->]. eauto.
Qed.

Lemma Sorted_keys_records s :
  Forall key_of_record s -> Sorted key_le s -> Sorted instance_id_le (s.*2).
Proof.
  induction s as [|x s IH]; intros HF HS; simpl; [constructor|].
  apply Forall_cons in HF as [Hx HF]. apply Sorted_inv in HS as [HS Hhd].
  constructor; [by apply IH|].
  destruct s as [|y s]; simpl; constructor.
  apply HdRel_inv in Hhd as (a & b & Ha & Hb & Hab).
  apply Forall_cons in HF as [Hy _].
  unfold key_of_record in *. exists a, b. rewrite Hx, Hy, Ha, Hb. by repeat split.
Qed.

(** A successful [sorted] of a collection one of whose records has an
    integer ["instance-id"] returns the same records in ascending order. *)
Lemma sorted_by_instance_id_spec l l' :
  sorted_by_instance_id l = inr l' ->
  (exists r a, r ∈ l /\ r !! "instance-id" = Some (VInt a)) ->
  l' ≡ₚ l /\ Sorted instance_id_le l'.
Proof.
  unfold sorted_by_instance_id. intros H (r & a & Hin & Hr).
  destruct (keyed l) as [e|kl] eqn:Hk; [done|].
  destruct (sort_keyed kl) as [e|s] eqn:Hs; [done|]. injection H as <-.
  destruct (keyed_inv _ _ Hk) as [Hl HF].
  pose proof (sort_keyed_perm _ _ Hs) as Hp. split.
  - rewrite <- Hl. by rewrite Hp.
  - apply Sorted_keys_records; [by rewrite Hp|].
    eapply sort_keyed_sorted; [|exact Hs].
    eapply sort_keyed_int_keys; [exact Hs|].
    rewrite <- Hl in Hin. apply list_elem_of_fmap in Hin as ([k r'] & -> & Hin).
    apply Exists_exists. exists (k, r'). split; [done|].
    rewrite Forall_forall in HF. specialize (HF _ Hin).
    unfold key_of_record in HF. simpl in *. exists a. simpl. congruence.
Qed.

(** On records that all carry an integer ["instance-id"] the sort
    returns. *)
Lemma sorted_by_instance_id_total l :
  Forall (fun r => exists a, r !! "instance-id" = Some (VInt a)) l ->
  exists l', sorted_by_instance_id l = inr l'.
Proof.
  intros HF. unfold sorted_by_instance_id.
  destruct (keyed_total l) as [kl Hk].
  { eapply Forall_impl; [exact HF|]. intros r [a Ha]. eauto. }
  rewrite Hk. destruct (keyed_inv _ _ Hk) as [Hl Hkey].
  destruct (sort_keyed_total kl) as [s ->]; [|eauto].
  subst l. clear Hk. induction kl as [|[k r] kl IH]; [constructor|].
  apply Forall_cons in Hkey as [Hr Hkey].
  simpl in HF. apply Forall_cons in HF as [[a Ha] HF].
  constructor; [|by apply IH].
  unfold key_of_record in Hr. simpl in *. exists a. simpl. congruence.
Qed.

(** ** [unset_property_id] and the registry invariants *)

Lemma unset_not_dynamic pid st :
  ~ dynamic st pid -> unset_property_id (VStr pid) st = (inr tt, st).
Proof.
  intros Hn. unfold unset_property_id, bind, get.
  destruct (new_property_ids st) as [ids|] eqn:Hids; [|done].
  rewrite bool_decide_eq_false_2; [done|].
  intros Hin. apply Hn. by exists ids.
Qed.

Lemma unset_not_string v st :
  (forall pid, v <> VStr pid) -> unset_property_id v st = (inr tt, st).
Proof.
  intros Hv. unfold unset_property_id, bind, get.
  destruct (new_property_ids st); [|done].
  destruct v; try done. by destruct (Hv s).
Qed.

Lemma unset_removes pid n ids d st :
  new_property_ids st = Some ids -> pid ∈ ids ->
  kim_properties st !! pid = Some d ->
  property_id_to_property_name st !! pid = Some n ->
  is_Some (property_name_to_property_id st !! n) ->
  unset_property_id (VStr pid) st = (inr tt, unset_state st pid n ids).
Proof.
  intros Hids Hin Hk Hi [q Hq]. unfold unset_property_id, bind, get.
  rewrite Hids. rewrite bool_decide_eq_true_2 by done.
  unfold del_kim_properties. rewrite Hk.
  unfold get_property_id_to_property_name. simpl. rewrite Hi.
  unfold del_property_name_to_property_id. simpl. rewrite Hq.
  unfold del_property_id_to_property_name. simpl. rewrite Hi.
  unfold set_new_property_ids, modify, unset_state. simpl.
  by destruct (decide (length (py_remove pid ids) = 0%nat)).
Qed.

(** When the first [del] fails nothing has been written. *)
Lemma unset_unregistered pid ids st :
  new_property_ids st = Some ids -> pid ∈ ids ->
  kim_properties st !! pid = None ->
  unset_property_id (VStr pid) st = (inl KeyError, st).
Proof.
  intros Hids Hin Hk. unfold unset_property_id, bind, get.
  rewrite Hids. rewrite bool_decide_eq_true_2 by done.
  unfold del_kim_properties. by rewrite Hk.
Qed.

Lemma unset_state_consistent st pid n ids :
  registry_consistent st ->
  property_id_to_property_name st !! pid = Some n ->
  registry_consistent (unset_state st pid n ids).
Proof.
  intros [Hreg Hinv] Hn. split; simpl.
  - intros i. destruct (decide (i = pid)) as [->|Hne].
    + rewrite !lookup_delete_eq. split; by intros [? ?].
    + rewrite !lookup_delete_ne by done. apply Hreg.
  - intros n' i. rewrite !lookup_delete_Some. rewrite Hinv. split.
    + intros [Hnn Hi]. split; [|done]. intros ->. congruence.
    + intros [Hpi Hi]. split; [|done]. intros ->.
      apply Hinv in Hi. apply Hinv in Hn. congruence.
Qed.

Lemma unset_consistent v st :
  registry_consistent st -> registry_consistent (unset_property_id v st).2.
Proof.
  intros Hc.
  destruct (new_property_ids st) as [ids|] eqn:Hids.
  2:{ unfold unset_property_id, bind, get. by rewrite Hids. }
  destruct v as [|z|pid]; try (rewrite unset_not_string; done).
  destruct (decide (pid ∈ ids)) as [Hin|Hout].
  2:{ rewrite unset_not_dynamic; [done|]. intros (ids' & H & Hin). congruence. }
  destruct (kim_properties st !! pid) as [d|] eqn:Hk.
  2:{ by rewrite (unset_unregistered pid ids). }
  destruct (proj2 (ids_registered st Hc pid)) as [n Hn]; [eauto|].
  rewrite (unset_removes pid n ids d) by
    (try done; exists pid; by apply (indices_inverse st Hc)).
  by apply unset_state_consistent.
Qed.

Lemma py_remove_NoDup {A} `{EqDecision A} (x : A) l :
  NoDup l -> x ∉ py_remove x l.
Proof.
  induction 1 as [|y l Hy HN IH]; simpl; [apply not_elem_of_nil|].
  destruct (decide (x = y)) as [->|Hne]; [done|].
  apply not_elem_of_cons. by split.
Qed.

(** ** Registration from a file *)

Lemma register_cases env p st :
  (exists e, register_from_file env p st = (inl e, st)) \/
  (exists pd pid,
      kim_edn_load env p = Some pd /\
      pd !! "property-id" = Some (VStr pid) /\
      kim_properties st !! pid = None /\
      register_from_file env p st = (inr pid, registered_state env st pid pd)).
Proof.
  unfold register_from_file.
  destruct (kim_edn_load env p) as [pd|] eqn:Hl; [|left; by eexists].
  destruct (check_property_definition env pd); simpl; [|left; by eexists].
  destruct (pd !! "property-id") as [[|z|pid]|] eqn:Hid; try (left; by eexists).
  unfold bind, get.
  destruct (kim_properties st !! pid) as [d|] eqn:Hk.
  - left. rewrite bool_decide_eq_true_2 by eauto. by eexists.
  - rewrite bool_decide_eq_false_2 by (by intros [? ?]).
    right. by exists pd, pid.
Qed.

Lemma registered_state_consistent env st pid pd :
  registry_consistent st ->
  kim_properties st !! pid = None ->
  property_name_to_property_id st !! get_property_id_path env pid = None ->
  registry_consistent (registered_state env st pid pd).
Proof.
  intros [Hreg Hinv] Hk Hfree.
  assert (Hi : property_id_to_property_name st !! pid = None).
  { destruct (property_id_to_property_name st !! pid) eqn:E; [|done].
    destruct (proj1 (Hreg pid)) as [d Hd]; [eauto|congruence]. }
  split; simpl.
  - intros i. destruct (decide (i = pid)) as [->|Hne].
    + rewrite !lookup_insert_eq. split; eauto.
    + rewrite !lookup_insert_ne by done. apply Hreg.
  - intros n i. rewrite !lookup_insert_Some. rewrite Hinv. split.
    + intros [[<- <-]|[Hne Hn]]; [by left|]. right. split; [|done].
      intros ->. congruence.
    + intros [[<- <-]|[Hne Hn]]; [by left|]. right. split; [|done].
      intros <-. apply Hinv in Hn. congruence.
Qed.

Lemma resolve_cases env p st :
  (exists e, resolve_property env p st = (inl e, st)) \/
  (exists pid, resolve_property env p st = (inr pid, st)) \/
  (exists pd pid,
      kim_edn_load env p = Some pd /\
      pd !! "property-id" = Some (VStr pid) /\
      kim_properties st !! pid = None /\
      resolve_property env p st = (inr pid, registered_state env st pid pd)).
Proof.
  destruct (isfile env p) eqn:Hf.
  - rewrite resolve_file by done.
    destruct (register_cases env p st) as [H|H]; [by left|by right; right].
  - unfold resolve_property, bind, get. rewrite Hf.
    repeat case_bool_decide.
    + destruct (property_name_to_property_id st !! p);
        [right; left; by eexists|left; by eexists].
    + right; left; by eexists.
    + left; by eexists.
Qed.

Lemma append_instance_state env v pid C st : (append_instance env v pid C st).2 = st.
Proof.
  unfold append_instance, bind, lift, ret.
  destruct (decide _); [|done].
  by destruct (sorted_by_instance_id _).
Qed.

Lemma create_state_cases env instance_id property_name pi st :
  (kim_property_create env instance_id property_name pi st).2 = st \/
  (exists p pd pid,
      property_name = VStr p /\
      kim_edn_load env p = Some pd /\
      pd !! "property-id" = Some (VStr pid) /\
      kim_properties st !! pid = None /\
      (kim_property_create env instance_id property_name pi st).2
      = registered_state env st pid pd).
Proof.
  destruct (kim_property_create env instance_id property_name pi st)
    as [r st'] eqn:Hc. simpl.
  unfold kim_property_create in Hc.
  destruct instance_id as [|z|s]; try (injection Hc as _ <-; by left).
  destruct (check_instance_id_format env z); simpl in Hc;
    [|injection Hc as _ <-; by left].
  destruct property_name as [| |p]; try (injection Hc as _ <-; by left).
  unfold bind in Hc.
  pose proof (open_collection_state env (VInt z) pi st) as Ho.
  destruct (open_collection env (VInt z) pi st) as [[e|C] st1];
    simpl in Ho; subst st1; [injection Hc as _ <-; by left|].
  destruct (resolve_cases env p st)
    as [[e He]|[[pid He]|(pd & pid & Hl & Hid & Hk & He)]]; rewrite He in Hc.
  - injection Hc as _ <-; by left.
  - left. rewrite <- (append_instance_state env (VInt z) pid C st). by rewrite Hc.
  - right. exists p, pd, pid. repeat split; try done.
    rewrite <- (append_instance_state env (VInt z) pid C (registered_state env st pid pd)).
    by rewrite Hc.
Qed.

(** [kim_property_create] returns: with arguments that pass the checks,
    a collection of records with integer instance ids other than the new
    one, and a known reference that is no file, the call succeeds and
    leaves the state as it was. *)
Lemma create_succeeds env z p pi C pid st :
  check_instance_id_format env z = true ->
  opens env pi C -> no_repeat (VInt z) C ->
  Forall (fun r => exists a, r !! "instance-id" = Some (VInt a)) C ->
  isfile env p = false ->
  known_reference st p = Some pid ->
  exists out, kim_property_create env (VInt z) (VStr p) pi st = (inr out, st).
Proof.
  intros Hz Ho Hn Hint Hf Hk.
  rewrite (create_unfold env z p pi C) by done.
  unfold bind. rewrite (resolve_known env p pid) by done.
  unfold append_instance, bind, lift, ret.
  destruct (decide _); [|eauto].
  destruct (sorted_by_instance_id_total (C ++ [new_property_instance pid (VInt z)]))
    as [L ->]; [|eauto].
  apply Forall_app. split; [done|].
  apply Forall_singleton. exists z. apply lookup_insert_eq.
Qed.

(** ** The loop of [kim_property_destroy] *)

Lemma py_remove_length {A} `{EqDecision A} (x : A) l :
  (length (py_remove x l) <= length l)%nat.
Proof.
  induction l as [|y l IH]; simpl; [done|].
  destruct (decide (x = y)); simpl; lia.
Qed.

Lemma py_remove_middle {A} `{EqDecision A} (x : A) l1 l2 :
  x ∉ l1 -> py_remove x (l1 ++ x :: l2) = l1 ++ l2.
Proof.
  induction l1 as [|y l1 IH]; simpl; intros Hn.
  - by rewrite decide_True.
  - apply not_elem_of_cons in Hn as [Hne Hn].
    rewrite decide_False by done. by rewrite IH.
Qed.

(** The loop makes at most [length l - i] turns: more fuel than that is
    never used. *)
Lemma destroy_loop_fuel fuel k v i l st :
  (length l - i <= fuel)%nat ->
  destroy_loop (fuel + k) v i l st = destroy_loop fuel v i l st.
Proof.
  revert i l st. induction fuel as [|fuel IH]; intros i l st Hlen.
  - simpl. destruct k; simpl; [done|].
    rewrite (lookup_ge_None_2 l i) by lia. done.
  - simpl. destruct (l !! i) as [a|] eqn:Hi; [|done].
    apply lookup_lt_Some in Hi.
    destruct (a !! "instance-id") as [w|]; [|done].
    destruct (decide (v = w)) as [Heq|Hne].
    + destruct (a !! "property-id") as [pid|]; [|done].
      unfold bind. destruct (unset_property_id pid st) as [[e|[]] st']; [done|].
      apply IH. pose proof (py_remove_length a l). lia.
    + apply IH. lia.
Qed.

Lemma destroy_loop_consistent fuel v i l st :
  registry_consistent st -> registry_consistent (destroy_loop fuel v i l st).2.
Proof.
  revert i l st. induction fuel as [|fuel IH]; intros i l st Hc; simpl; [done|].
  destruct (l !! i) as [a|]; [|done].
  destruct (a !! "instance-id") as [w|]; [|done].
  destruct (decide (v = w)) as [Heq|Hne]; [|by apply IH].
  destruct (a !! "property-id") as [pid|]; [|done].
  unfold bind. pose proof (unset_consistent pid st Hc) as Hu.
  destruct (unset_property_id pid st) as [[e|[]] st']; simpl in Hu; [done|].
  by apply IH.
Qed.

(** From an index past which no record has the instance id, the loop
    changes nothing. *)
Lemma destroy_loop_no_match fuel v i l st :
  no_repeat v (drop i l) -> destroy_loop fuel v i l st = (inr l, st).
Proof.
  revert i. induction fuel as [|fuel IH]; intros i Hn; simpl; [done|].
  destruct (l !! i) as [a|] eqn:Hi; [|done].
  rewrite (drop_S _ _ _ Hi) in Hn. apply Forall_cons in Hn as [(w & Hw & Hne) Hn].
  rewrite Hw. rewrite decide_False by congruence. by apply IH.
Qed.

(** Turns over records that do not have the instance id only advance the
    index. *)
Lemma destroy_loop_skip v l1 l2 fuel st :
  no_repeat v l1 ->
  forall l0,
  destroy_loop (length l1 + fuel) v (length l0) (l0 ++ l1 ++ l2) st =
  destroy_loop fuel v (length l0 + length l1) (l0 ++ l1 ++ l2) st.
Proof.
  induction 1 as [|a l1 (w & Hw & Hne) _ IH]; intros l0; simpl.
  - by rewrite Nat.add_0_r.
  - rewrite lookup_app_r by lia. rewrite Nat.sub_diag. simpl.
    rewrite Hw. rewrite decide_False by congruence.
    specialize (IH (l0 ++ [a])). rewrite length_app in IH. simpl in IH.
    rewrite <- !app_assoc in IH. simpl in IH.
    rewrite Nat.add_1_r in IH. rewrite IH. f_equal. lia.
Qed.

(** A collection in which exactly one record has the instance id: the
    record is taken out, its property id is unset, the rest is kept. *)
Lemma destroy_loop_single v l1 a l2 pid st :
  no_repeat v l1 -> no_repeat v l2 ->
  a !! "instance-id" = Some v -> a !! "property-id" = Some pid ->
  destroy_loop (length (l1 ++ a :: l2)) v 0 (l1 ++ a :: l2) st =
  (unset_property_id pid ;;; ret (l1 ++ l2)) st.
Proof.
  intros H1 H2 Ha Hp.
  rewrite length_app. simpl length.
  pose proof (destroy_loop_skip v l1 (a :: l2) (S (length l2)) st H1 []) as Hs.
  simpl in Hs. rewrite Hs. clear Hs. simpl.
  rewrite lookup_app_r by lia. rewrite Nat.sub_diag. simpl.
  rewrite Ha. rewrite decide_True by done. rewrite Hp.
  unfold bind. destruct (unset_property_id pid st) as [[e|[]] st']; [done|].
  rewrite py_remove_middle.
  2:{ intros Hin. unfold no_repeat in H1. rewrite Forall_forall in H1.
      destruct (H1 a Hin) as (w & Hw & Hne). congruence. }
  apply destroy_loop_no_match.
  rewrite drop_app_ge by lia.
  replace (S (length l1) - length l1)%nat with 1%nat by lia.
  destruct l2 as [|b l2]; simpl; [constructor|].
  rewrite drop_0. by apply Forall_cons in H2 as [_ H2].
Qed.

(** ** [kim_property_destroy] on collections with unique instance ids *)

(** X8: no record has the instance id: the collection is encoded as it
    was decoded and the state is untouched. *)
Lemma destroy_absent (env : Env) (text : string) (l : list record) (z : Z) (st : State) :
  bool_decide (text = "None") || bool_decide (text = "") || bool_decide (text = "[]") = false ->
  kim_edn_loads env text = Some l ->
  no_repeat (VInt z) l ->
  kim_property_destroy env (Some text) (VInt z) st = (inr (kim_edn_dumps env l), st).
Proof.
  intros Hs Hl Hn. unfold kim_property_destroy. rewrite Hs, Hl.
  unfold bind. rewrite destroy_loop_no_match; [done|]. by rewrite drop_0.
Qed.

(** X9: one record has the instance id: it is left out, the others are
    kept in their order, and its property id is unset. *)
Lemma destroy_single (env : Env) (text : string) (l1 l2 : list record) (a : record)
    (z : Z) (property_id : value) (st : State) :
  bool_decide (text = "None") || bool_decide (text = "") || bool_decide (text = "[]") = false ->
  kim_edn_loads env text = Some (l1 ++ a :: l2) ->
  no_repeat (VInt z) l1 -> no_repeat (VInt z) l2 ->
  a !! "instance-id" = Some (VInt z) -> a !! "property-id" = Some property_id ->
  kim_property_destroy env (Some text) (VInt z) st
  = (unset_property_id property_id ;;; ret (kim_edn_dumps env (l1 ++ l2))) st.
Proof.
  intros Hs Hl H1 H2 Ha Hp. unfold kim_property_destroy. rewrite Hs, Hl.
  unfold bind at 1. rewrite (destroy_loop_single _ l1 a l2 property_id) by done.
  unfold bind, ret. by destruct (unset_property_id property_id st) as [[e|[]] st'].
Qed.

(** ** The concrete environment *)

Lemma bits_to_pos_to_bits p : Ref.bits_to_pos (Ref.pos_to_bits p) = Some p.
Proof. induction p as [p IH|p IH|]; simpl; [by rewrite IH..|done]. Qed.

Lemma ref_loads_dumps l : Ref.loads (Ref.dumps l) = Some l.
Proof.
  destruct l as [|r l]; [done|].
  unfold Ref.dumps, Ref.loads.
  rewrite bool_decide_eq_false_2 by done.
  simpl. rewrite bits_to_pos_to_bits. apply decode_encode.
Qed.

Lemma ref_dumps_not_sentinel r l :
  bool_decide (Ref.dumps (r :: l) = "None") || bool_decide (Ref.dumps (r :: l) = "")
  || bool_decide (Ref.dumps (r :: l) = "[]") = false.
Proof. unfold Ref.dumps. by rewrite !bool_decide_eq_false_2 by done. Qed.

Lemma ref_baseline_consistent : registry_consistent Ref.baseline.
Proof.
  split; simpl.
  - intros i. rewrite <- !elem_of_dom. rewrite !dom_insert_L. done.
  - intros n i. rewrite !lookup_insert_Some, !lookup_empty.
    split; intros [[<- <-]|[Hne [[<- <-]|[_ [=]]]]]; auto.
Qed.

(** The states [kim_property_create] can leave, with what made it
    register a definition. *)
Lemma register_cases_checked env p st :
  (exists e, register_from_file env p st = (inl e, st)) \/
  (exists pd pid,
      kim_edn_load env p = Some pd /\
      check_property_definition env pd = true /\
      pd !! "property-id" = Some (VStr pid) /\
      kim_properties st !! pid = None /\
      register_from_file env p st = (inr pid, registered_state env st pid pd)).
Proof.
  unfold register_from_file.
  destruct (kim_edn_load env p) as [pd|] eqn:Hl; [|left; by eexists].
  destruct (check_property_definition env pd) eqn:Hchk; simpl; [|left; by eexists].
  destruct (pd !! "property-id") as [[|z|pid]|] eqn:Hid; try (left; by eexists).
  unfold bind, get.
  destruct (kim_properties st !! pid) as [d|] eqn:Hk.
  - left. rewrite bool_decide_eq_true_2 by eauto. by eexists.
  - rewrite bool_decide_eq_false_2 by (by intros [? ?]).
    right. by exists pd, pid.
Qed.

Lemma resolve_no_file_state env p st :
  isfile env p = false -> (resolve_property env p st).2 = st.
Proof.
  intros Hf. unfold resolve_property, bind, get. rewrite Hf.
  repeat case_bool_decide; try done.
  by destruct (property_name_to_property_id st !! p).
Qed.

Lemma create_state_cases_checked env instance_id property_name pi st :
  (kim_property_create env instance_id property_name pi st).2 = st \/
  (exists p pd pid,
      property_name = VStr p /\
      isfile env p = true /\
      kim_edn_load env p = Some pd /\
      check_property_definition env pd = true /\
      pd !! "property-id" = Some (VStr pid) /\
      kim_properties st !! pid = None /\
      (kim_property_create env instance_id property_name pi st).2
      = registered_state env st pid pd).
Proof.
  destruct (kim_property_create env instance_id property_name pi st)
    as [r st'] eqn:Hc. simpl.
  unfold kim_property_create in Hc.
  destruct instance_id as [|z|s]; try (injection Hc as _ <-; by left).
  destruct (check_instance_id_format env z); simpl in Hc;
    [|injection Hc as _ <-; by left].
  destruct property_name as [| |p]; try (injection Hc as _ <-; by left).
  unfold bind in Hc.
  pose proof (open_collection_state env (VInt z) pi st) as Ho.
  destruct (open_collection env (VInt z) pi st) as [[e|C] st1];
    simpl in Ho; subst st1; [injection Hc as _ <-; by left|].
  destruct (isfile env p) eqn:Hf.
  - rewrite resolve_file in Hc by done.
    destruct (register_cases_checked env p st)
      as [[e He]|(pd & pid & Hl & Hchk & Hid & Hk & He)]; rewrite He in Hc.
    + injection Hc as _ <-. by left.
    + right. exists p, pd, pid. repeat split; try done.
      rewrite <- (append_instance_state env (VInt z) pid C
                    (registered_state env st pid pd)).
      by rewrite Hc.
  - left. pose proof (resolve_no_file_state env p st Hf) as Hr.
    destruct (resolve_property env p st) as [[e|pid] st1]; simpl in Hr; subst st1.
    + by injection Hc as _ <-.
    + rewrite <- (append_instance_state env (VInt z) pid C st). by rewrite Hc.
Qed.

Lemma ex_st_foo_a_consistent : registry_consistent Ex.st_foo_a.
Proof.
  assert (Hst : Ex.st_foo_a
    = registered_state Ref.env Ref.baseline Ref.foo_a_id (Ref.def_of Ref.foo_a_id))
    by compute_done.
  rewrite Hst. apply registered_state_consistent.
  - exact ref_baseline_consistent.
  - compute_done.
  - compute_done.
Qed.

(** The dict of lines 157, 199-204 and 215 has the two fields
    ["property-id"] and ["instance-id"], and no other. *)
Lemma new_property_instance_fields property_id instance_id :
  new_property_instance property_id instance_id
  = {[ "property-id" := VStr property_id; "instance-id" := instance_id ]}.
Proof.
  unfold new_property_instance. rewrite insert_empty.
  by apply insert_insert_ne.
Qed.

(** The docstrings of the two operations, run in the baseline: a first
    instance, a second one appended to it, and the destruction of the
    second one, which gives back the first collection. *)
Example docstring_scenario :
  kim_property_create Ref.env (VInt 1)
    (VStr "cohesive-energy-relation-cubic-crystal") None Ref.baseline
  = (inr (Ref.dumps [Ex.cohesive_1]), Ref.baseline) /\
  kim_property_create Ref.env (VInt 2) (VStr "atomic-mass")
    (Some (Ref.dumps [Ex.cohesive_1])) Ref.baseline
  = (inr (Ref.dumps [Ex.cohesive_1; Ex.atomic_mass_2]), Ref.baseline) /\
  kim_property_destroy Ref.env (Some (Ref.dumps [Ex.cohesive_1; Ex.atomic_mass_2]))
    (VInt 2) Ref.baseline
  = (inr (Ref.dumps [Ex.cohesive_1]), Ref.baseline).
Proof. split; [|split]; compute_done. Qed.

(** A later instance id given first: the collection comes back sorted. *)
Example create_sorts :
  kim_property_create Ref.env (VInt 1) (VStr Ref.atomic_mass_id)
    (Some (Ref.dumps [Ex.atomic_mass_2; Ex.cohesive_3])) Ref.baseline
  = (inr (Ref.dumps [Ex.atomic_mass_1; Ex.atomic_mass_2; Ex.cohesive_3]), Ref.baseline).
Proof. compute_done. Qed.

(** * The claims *)

(** C1 (the code departs from the claim): the decoded collection holds two
    adjacent records with instance id 1.  The loop removes the first one
    while iterating, the second one moves into the slot just visited and
    is never looked at: it is still in the collection returned. *)
Theorem destroy_adjacent_duplicates :
  kim_edn_loads Ref.env (Ref.dumps [Ex.cohesive_1; Ex.atomic_mass_1])
  = Some [Ex.cohesive_1; Ex.atomic_mass_1] /\
  kim_property_destroy Ref.env (Some (Ref.dumps [Ex.cohesive_1; Ex.atomic_mass_1]))
    (VInt 1) Ref.baseline
  = (inr (Ref.dumps [Ex.atomic_mass_1]), Ref.baseline) /\
  Ex.atomic_mass_1 !! "instance-id" = Some (VInt 1).
Proof.
  split; [apply ref_loads_dumps|]. split; [|reflexivity].
  unfold kim_property_destroy.
  rewrite ref_dumps_not_sentinel.
  change (kim_edn_loads Ref.env) with Ref.loads. rewrite ref_loads_dumps.
  unfold bind.
  assert (Hloop : destroy_loop 2 (VInt 1) 0 [Ex.cohesive_1; Ex.atomic_mass_1] Ref.baseline
                  = (inr [Ex.atomic_mass_1], Ref.baseline)) by compute_done.
  simpl length. rewrite Hloop. reflexivity.
Qed.

(** C2: when the decoded collection holds a record whose instance id is
    [instance_id], [kim_property_create] raises the duplicate error and
    the module state (registry, both indices, dynamic list) is the one it
    was called in.  The arguments are an instance id of valid format and a
    string; the records before the duplicate carry an instance id. *)
Theorem create_duplicate_instance_id (env : Env) (z : Z) (p text : string)
    (C : list record) (st : State) :
  check_instance_id_format env z = true ->
  kim_edn_loads env text = Some C ->
  Forall (fun r => is_Some (r !! "instance-id")) C ->
  (exists r, r ∈ C /\ r !! "instance-id" = Some (VInt z)) ->
  kim_property_create env (VInt z) (VStr p) (Some text) st
  = (inl DuplicateInstanceIdError, st).
Proof.
  intros Hz Hl HF Hex. unfold kim_property_create. rewrite Hz. simpl.
  rewrite Hl. unfold bind. by rewrite check_repeat_found.
Qed.

Lemma create_duplicate_instance_id_witness :
  kim_property_create Ref.env (VInt 1) (VStr "atomic-mass")
    (Some (Ref.dumps [Ex.cohesive_1])) Ref.baseline
  = (inl DuplicateInstanceIdError, Ref.baseline).
Proof.
  apply (create_duplicate_instance_id Ref.env 1 "atomic-mass" _ [Ex.cohesive_1]).
  - reflexivity.
  - apply ref_loads_dumps.
  - apply Forall_singleton. exists (VInt 1). reflexivity.
  - exists Ex.cohesive_1. split; [apply list_elem_of_here|reflexivity].
Defined.

(** C3: when the reference is a file whose definition has an id the
    registry already holds, [kim_property_create] raises the
    pre-existing-definition error; the module state is the one it was
    called in, and no collection is returned. *)
Theorem create_file_preexisting (env : Env) (z : Z) (p : string)
    (property_instances : option string) (C : list record)
    (pd : definition) (property_id : string) (st : State) :
  check_instance_id_format env z = true ->
  opens env property_instances C -> no_repeat (VInt z) C ->
  isfile env p = true ->
  kim_edn_load env p = Some pd ->
  check_property_definition env pd = true ->
  pd !! "property-id" = Some (VStr property_id) ->
  is_Some (kim_properties st !! property_id) ->
  kim_property_create env (VInt z) (VStr p) property_instances st
  = (inl PreexistingDefinitionError, st).
Proof.
  intros Hz Ho Hn Hf Hl Hc Hid Hin.
  rewrite (create_unfold env z p _ C) by done.
  unfold bind. rewrite resolve_file by done.
  by rewrite (register_preexisting env p pd property_id).
Qed.

Lemma create_file_preexisting_witness :
  kim_property_create Ref.env (VInt 2) (VStr "known.edn")
    (Some (Ref.dumps [Ex.cohesive_1])) Ref.baseline
  = (inl PreexistingDefinitionError, Ref.baseline).
Proof.
  apply (create_file_preexisting Ref.env 2 "known.edn" _ [Ex.cohesive_1]
           (Ref.def_of Ref.atomic_mass_id) Ref.atomic_mass_id).
  - reflexivity.
  - apply ref_loads_dumps.
  - apply Forall_singleton. exists (VInt 1). split; [reflexivity|discriminate].
  - reflexivity.
  - reflexivity.
  - reflexivity.
  - reflexivity.
  - exists (Ref.def_of Ref.atomic_mass_id). reflexivity.
Defined.

(** C4: a [kim_property_create] that succeeds on a decoded collection [C]
    returns the encoding of a collection [L] that has exactly the records
    of [C] and the new record, none changed and none lost, in ascending
    order of instance id; with a codec that round-trips, decoding the
    output gives [L].  The new record is the dict of two fields,
    ["property-id"] with the id the reference resolves to and
    ["instance-id"] with [instance_id]. *)
Theorem create_appends_sorted (env : Env) (z : Z) (p : string)
    (property_instances : option string) (C : list record)
    (st st' : State) (out : string) :
  (forall l, kim_edn_loads env (kim_edn_dumps env l) = Some l) ->
  opens env property_instances C ->
  kim_property_create env (VInt z) (VStr p) property_instances st = (inr out, st') ->
  exists property_id L,
    resolve_property env p st = (inr property_id, st') /\
    out = kim_edn_dumps env L /\
    kim_edn_loads env out = Some L /\
    L ≡ₚ C ++ [{[ "property-id" := VStr property_id; "instance-id" := VInt z ]}] /\
    Sorted instance_id_le L.
Proof.
  intros Hrt Ho H. unfold kim_property_create in H.
  destruct (check_instance_id_format env z); simpl in H; [|done].
  unfold bind in H.
  destruct (open_collection env (VInt z) property_instances st)
    as [[e|C'] st1] eqn:Hopen; [done|].
  apply open_collection_inv in Hopen as [Ho' ->].
  assert (C' = C) as ->.
  { destruct property_instances; simpl in *; congruence. }
  destruct (resolve_property env p st) as [[e|property_id] st2] eqn:Hres; [done|].
  unfold append_instance, bind, lift, ret in H.
  set (new := new_property_instance property_id (VInt z)) in *.
  destruct (decide (1 < length (C ++ [new]))%nat) as [Hlen|Hlen].
  - destruct (sorted_by_instance_id (C ++ [new])) as [e|L] eqn:Hsort; [done|].
    injection H as <- <-.
    destruct (sorted_by_instance_id_spec _ _ Hsort) as [Hp Hs].
    { exists new, z. split; [set_solver|]. apply lookup_insert_eq. }
    exists property_id, L.
    rewrite <- (new_property_instance_fields property_id (VInt z)).
    by rewrite Hrt.
  - injection H as <- <-. exists property_id, (C ++ [new]). rewrite Hrt.
    rewrite <- (new_property_instance_fields property_id (VInt z)).
    repeat split; try done.
    destruct C as [|r C]; [by repeat constructor|].
    rewrite length_app in Hlen. simpl in Hlen. lia.
Qed.

Lemma create_appends_sorted_witness :
  exists property_id L,
    resolve_property Ref.env "cohesive-energy-relation-cubic-crystal" Ref.baseline
    = (inr property_id, Ref.baseline) /\
    Ref.dumps [Ex.cohesive_1; Ex.atomic_mass_2]
    = kim_edn_dumps Ref.env L /\
    kim_edn_loads Ref.env (Ref.dumps [Ex.cohesive_1; Ex.atomic_mass_2]) = Some L /\
    L ≡ₚ [Ex.atomic_mass_2]
         ++ [{[ "property-id" := VStr property_id; "instance-id" := VInt 1 ]}] /\
    Sorted instance_id_le L.
Proof.
  apply (create_appends_sorted Ref.env 1 "cohesive-energy-relation-cubic-crystal"
           (Some (Ref.dumps [Ex.atomic_mass_2])) [Ex.atomic_mass_2]
           Ref.baseline Ref.baseline).
  - exact ref_loads_dumps.
  - apply ref_loads_dumps.
  - rewrite (create_unfold Ref.env 1 _ _ [Ex.atomic_mass_2]).
    + reflexivity.
    + reflexivity.
    + apply ref_loads_dumps.
    + apply Forall_singleton. exists (VInt 2). split; [reflexivity|discriminate].
Defined.



(** C6: for every integer instance id, [kim_property_destroy] applied to
    [None], to ["None"], to the empty string or to ["[]"] returns ["[]"]
    at once: whatever the decoder would do (the environment is
    arbitrary), and leaving the module state as it was. *)
Theorem destroy_empty_sentinel (env : Env) (z : Z) (st : State) :
  kim_property_destroy env None (VInt z) st = (inr "[]", st) /\
  kim_property_destroy env (Some "None") (VInt z) st = (inr "[]", st) /\
  kim_property_destroy env (Some "") (VInt z) st = (inr "[]", st) /\
  kim_property_destroy env (Some "[]") (VInt z) st = (inr "[]", st).
Proof. split; [|split; [|split]]; reflexivity. Qed.

(** C7, as stated, fails: ["atomic-mass"] is a known short name of the
    baseline and, in [Ref.env_shadowed], also the name of a file of the
    working directory, which holds a valid definition with a new id.  The
    file wins: the record carries the id of the file's definition, not
    the id the name stands for, and the definition has been registered. *)
Lemma create_known_name_shadowed_by_file :
  check_instance_id_format Ref.env_shadowed 1 = true /\
  known_reference Ref.baseline "atomic-mass" = Some Ref.atomic_mass_id /\
  kim_property_create Ref.env_shadowed (VInt 1) (VStr "atomic-mass") None Ref.baseline
  = (inr (Ref.dumps [Ex.volume_1]),
     registered_state Ref.env_shadowed Ref.baseline Ref.volume_id
       (Ref.def_of Ref.volume_id)) /\
  ~ (exists out,
       kim_property_create Ref.env_shadowed (VInt 1) (VStr "atomic-mass") None Ref.baseline
       = (inr out, Ref.baseline) /\
       kim_edn_loads Ref.env_shadowed out = Some [Ex.atomic_mass_1]).
Proof.
  assert (Hrun :
    kim_property_create Ref.env_shadowed (VInt 1) (VStr "atomic-mass") None Ref.baseline
    = (inr (Ref.dumps [Ex.volume_1]),
       registered_state Ref.env_shadowed Ref.baseline Ref.volume_id
         (Ref.def_of Ref.volume_id)))
    by compute_done.
  assert (Hne :
    registered_state Ref.env_shadowed Ref.baseline Ref.volume_id (Ref.def_of Ref.volume_id)
    <> Ref.baseline) by compute_done.
  split; [reflexivity|]. split; [reflexivity|]. split; [exact Hrun|].
  intros (out & H & _). rewrite Hrun in H.
  apply (f_equal snd) in H. exact (Hne H).
Qed.

(** C7 (amended): for an instance id of valid format and a reference
    that is no existing file and is a known short name or a known
    property id, [kim_property_create] without a collection succeeds,
    leaves the module state as it was, and its output decodes (the codec
    round-tripping) to a single record: the dict of two fields,
    ["property-id"] with the id the reference stands for and
    ["instance-id"] with the instance id. *)
Theorem create_known_reference (env : Env) (z : Z) (p property_id : string) (st : State) :
  (forall l, kim_edn_loads env (kim_edn_dumps env l) = Some l) ->
  check_instance_id_format env z = true ->
  isfile env p = false ->
  known_reference st p = Some property_id ->
  exists out,
    kim_property_create env (VInt z) (VStr p) None st = (inr out, st) /\
    kim_edn_loads env out
    = Some [{[ "property-id" := VStr property_id; "instance-id" := VInt z ]}].
Proof.
  intros Hrt Hz Hf Hk.
  rewrite (create_unfold env z p None []); [|done|done|constructor].
  unfold bind. rewrite (resolve_known env p property_id) by done.
  unfold append_instance, bind, ret. simpl.
  eexists. split; [reflexivity|].
  rewrite <- (new_property_instance_fields property_id (VInt z)). apply Hrt.
Qed.

Lemma create_known_reference_witness :
  exists out,
    kim_property_create Ref.env (VInt 1)
      (VStr "cohesive-energy-relation-cubic-crystal") None Ref.baseline
    = (inr out, Ref.baseline) /\
    kim_edn_loads Ref.env out
    = Some [{[ "property-id" := VStr Ref.cohesive_id; "instance-id" := VInt 1 ]}].
Proof.
  apply (create_known_reference Ref.env 1 "cohesive-energy-relation-cubic-crystal"
           Ref.cohesive_id Ref.baseline).
  - exact ref_loads_dumps.
  - reflexivity.
  - reflexivity.
  - reflexivity.
Defined.

(** C8, as stated, fails in a state the operations reach: after the two
    creations and the destruction above, [foo_b_id] is in the dynamic
    list, yet unsetting it raises [KeyError] (its short name has left the
    name index together with [foo_a_id]); the id stays in the id index
    and in the dynamic list. *)
Lemma unset_dynamic_id_raises :
  kim_property_create Ref.env (VInt 1) (VStr "foo-a.edn") None Ref.baseline
  = (inr (Ref.dumps [Ex.foo_a_1]), Ex.st_foo_a) /\
  kim_property_create Ref.env (VInt 2) (VStr "foo-b.edn")
    (Some (Ref.dumps [Ex.foo_a_1])) Ex.st_foo_a
  = (inr (Ref.dumps [Ex.foo_a_1; Ex.foo_b_2]), Ex.st_foo_ab) /\
  kim_property_destroy Ref.env (Some (Ref.dumps [Ex.foo_a_1; Ex.foo_b_2])) (VInt 1)
    Ex.st_foo_ab
  = (inr (Ref.dumps [Ex.foo_b_2]), Ex.st_foo_b) /\
  new_property_ids Ex.st_foo_b = Some [Ref.foo_b_id] /\
  (unset_property_id (VStr Ref.foo_b_id) Ex.st_foo_b).1 = inl KeyError /\
  property_id_to_property_name (unset_property_id (VStr Ref.foo_b_id) Ex.st_foo_b).2
    !! Ref.foo_b_id = Some "foo" /\
  new_property_ids (unset_property_id (VStr Ref.foo_b_id) Ex.st_foo_b).2
  = Some [Ref.foo_b_id].
Proof.
  repeat (split; [compute_done|]). compute_done.
Qed.

(** C8 (amended): unsetting a property id that is not in the dynamic list
    changes nothing and raises nothing.  Unsetting one that is, in a state
    whose indices are consistent with the registry and whose dynamic ids
    are registered and listed once, raises nothing and takes the id out of
    the registry, of both indices and of the dynamic list. *)
Theorem unset_property_id_effect (st : State) (pid : string) :
  (~ dynamic st pid -> unset_property_id (VStr pid) st = (inr tt, st)) /\
  (dynamic st pid -> registry_consistent st -> dynamic_wf st ->
   exists n ids,
     property_id_to_property_name st !! pid = Some n /\
     new_property_ids st = Some ids /\
     unset_property_id (VStr pid) st = (inr tt, unset_state st pid n ids) /\
     kim_properties (unset_state st pid n ids) !! pid = None /\
     property_id_to_property_name (unset_state st pid n ids) !! pid = None /\
     (forall m, property_name_to_property_id (unset_state st pid n ids) !! m <> Some pid) /\
     ~ dynamic (unset_state st pid n ids) pid).
Proof.
  split; [apply unset_not_dynamic|].
  intros Hd Hc Hw. pose proof Hd as (ids & Hids & Hin).
  destruct (dynamic_registered st Hw pid Hd) as [d Hk].
  destruct (proj2 (ids_registered st Hc pid)) as [n Hn]; [eauto|].
  exists n, ids. split; [done|]. split; [done|]. split.
  { apply (unset_removes pid n ids d); try done.
    exists pid. by apply (indices_inverse st Hc). }
  simpl. rewrite !lookup_delete_eq. split; [done|]. split; [done|]. split.
  - intros m Hm. apply lookup_delete_Some in Hm as [Hne Hm].
    apply (indices_inverse st Hc) in Hm. congruence.
  - intros (ids' & Hids' & Hin'). simpl in Hids'.
    destruct (decide (length (py_remove pid ids) = 0%nat)); [done|].
    injection Hids' as <-. revert Hin'. apply py_remove_NoDup.
    by apply (dynamic_nodup st Hw).
Qed.

Lemma unset_property_id_effect_witness :
  unset_property_id (VStr Ref.atomic_mass_id) Ref.baseline = (inr tt, Ref.baseline) /\
  exists n ids,
    property_id_to_property_name Ex.st_foo_a !! Ref.foo_a_id = Some n /\
    new_property_ids Ex.st_foo_a = Some ids /\
    unset_property_id (VStr Ref.foo_a_id) Ex.st_foo_a
    = (inr tt, unset_state Ex.st_foo_a Ref.foo_a_id n ids) /\
    kim_properties (unset_state Ex.st_foo_a Ref.foo_a_id n ids) !! Ref.foo_a_id = None /\
    property_id_to_property_name (unset_state Ex.st_foo_a Ref.foo_a_id n ids)
      !! Ref.foo_a_id = None /\
    (forall m, property_name_to_property_id (unset_state Ex.st_foo_a Ref.foo_a_id n ids)
                 !! m <> Some Ref.foo_a_id) /\
    ~ dynamic (unset_state Ex.st_foo_a Ref.foo_a_id n ids) Ref.foo_a_id.
Proof.
  split.
  - apply (unset_property_id_effect Ref.baseline Ref.atomic_mass_id).
    intros (ids & Hids & _). discriminate Hids.
  - assert (Hst : Ex.st_foo_a
      = registered_state Ref.env Ref.baseline Ref.foo_a_id (Ref.def_of Ref.foo_a_id))
      by compute_done.
    assert (Hnew : new_property_ids Ex.st_foo_a = Some [Ref.foo_a_id]) by compute_done.
    apply (unset_property_id_effect Ex.st_foo_a Ref.foo_a_id).
    + exists [Ref.foo_a_id]. split; [exact Hnew|apply list_elem_of_here].
    + rewrite Hst. apply registered_state_consistent.
      * exact ref_baseline_consistent.
      * compute_done.
      * compute_done.
    + split.
      * intros i (ids & Hids & Hin). rewrite Hnew in Hids. injection Hids as <-.
        apply list_elem_of_singleton in Hin as ->. exists (Ref.def_of Ref.foo_a_id).
        compute_done.
      * intros ids Hids. rewrite Hnew in Hids. injection Hids as <-.
        apply NoDup_singleton.
Defined.

(** C9, as stated, fails: the baseline is consistent; registering from a
    file a definition with a new id and the short name ["atomic-mass"]
    succeeds and rebinds that name, so the name index no longer inverts
    the id index at the baseline id of ["atomic-mass"]. *)
Lemma create_name_collision_breaks_indices :
  registry_consistent Ref.baseline /\
  kim_property_create Ref.env (VInt 1) (VStr "other-mass.edn") None Ref.baseline
  = (inr (Ref.dumps [Ex.other_mass_1]), Ex.st_other_mass) /\
  property_id_to_property_name Ex.st_other_mass !! Ref.atomic_mass_id = Some "atomic-mass" /\
  property_name_to_property_id Ex.st_other_mass !! "atomic-mass" = Some Ref.other_mass_id /\
  ~ registry_consistent Ex.st_other_mass.
Proof.
  assert (Hi : property_id_to_property_name Ex.st_other_mass !! Ref.atomic_mass_id
               = Some "atomic-mass") by compute_done.
  assert (Hn : property_name_to_property_id Ex.st_other_mass !! "atomic-mass"
               = Some Ref.other_mass_id) by compute_done.
  split; [exact ref_baseline_consistent|].
  split; [compute_done|].
  split; [exact Hi|]. split; [exact Hn|].
  intros [_ Hinv]. apply Hinv in Hi. rewrite Hn in Hi. discriminate Hi.
Qed.

(** C9 (amended): from a state whose two indices are inverse of each
    other and whose id index has the keys of the registry, every outcome
    of [kim_property_create] (errors included), provided the short name
    of a definition it registers from a file is not yet a key of the name
    index, and every outcome of [kim_property_destroy] and of
    [unset_property_id] leave such a state.  The proviso is about the
    definition that gets registered only: a call that registers nothing
    (no file, a rejected definition, an id the registry already has) is
    under no condition. *)
Theorem registry_consistency_preserved (env : Env) (st : State) :
  registry_consistent st ->
  (forall instance_id property_name property_instances,
      (forall p, property_name = VStr p -> no_name_collision env st p) ->
      registry_consistent
        (kim_property_create env instance_id property_name property_instances st).2) /\
  (forall property_instances instance_id,
      registry_consistent
        (kim_property_destroy env property_instances instance_id st).2) /\
  (forall property_id, registry_consistent (unset_property_id property_id st).2).
Proof.
  intros Hc. split; [|split].
  - intros instance_id property_name pi Hfree.
    destruct (create_state_cases_checked env instance_id property_name pi st)
      as [->|(p & pd & pid & -> & Hf & Hl & Hchk & Hid & Hk & ->)]; [done|].
    apply registered_state_consistent; try done.
    by apply (Hfree p eq_refl pd pid).
  - intros pi instance_id. unfold kim_property_destroy.
    destruct instance_id as [|z|s]; try done.
    destruct pi as [text|]; [|done].
    destruct (_ || _); [done|].
    destruct (kim_edn_loads env text) as [l|]; [|done].
    unfold bind.
    pose proof (destroy_loop_consistent (length l) (VInt z) 0 l st Hc) as Hd.
    by destruct (destroy_loop (length l) (VInt z) 0 l st) as [[e|l'] st'].
  - intros v. by apply unset_consistent.
Qed.

Lemma registry_consistency_preserved_witness :
  registry_consistent
    (kim_property_create Ref.env (VInt 1) (VStr "volume.edn") None Ref.baseline).2 /\
  registry_consistent
    (kim_property_create Ref.env (VInt 1) (VStr "known.edn") None Ref.baseline).2 /\
  registry_consistent
    (kim_property_create Ref.env (VInt 2) (VStr "volume.edn")
       (Some (Ref.dumps [Ex.foo_a_1])) Ex.st_foo_a).2 /\
  registry_consistent
    (kim_property_destroy Ref.env (Some (Ref.dumps [Ex.foo_a_1])) (VInt 1) Ex.st_foo_a).2 /\
  registry_consistent (unset_property_id (VStr Ref.foo_a_id) Ex.st_foo_a).2.
Proof.
  destruct (registry_consistency_preserved Ref.env Ref.baseline ref_baseline_consistent)
    as (Hcreate & _ & _).
  destruct (registry_consistency_preserved Ref.env Ex.st_foo_a ex_st_foo_a_consistent)
    as (Hcreate' & Hdestroy & Hunset).
  split; [|split; [|split; [|split]]].
  - (* a definition with a new id and a free short name is registered *)
    apply Hcreate. intros p [= <-] pd pid _ Hl _ Hid _.
    injection Hl as <-. injection Hid as <-. reflexivity.
  - (* the id is registered already: the call fails and registers nothing *)
    apply Hcreate. intros p [= <-] pd pid _ Hl _ Hid Hk.
    injection Hl as <-. injection Hid as <-. exfalso. revert Hk. compute_done.
  - (* a second registration, in a state that has a dynamic definition *)
    apply Hcreate'. intros p [= <-] pd pid _ Hl _ Hid _.
    injection Hl as <-. injection Hid as <-. compute_done.
  - apply Hdestroy.
  - apply Hunset.
Defined.

(** C10: in [kim_property_destroy] the type check of [instance_id] comes
    before the test for an empty sentinel: an [instance_id] that is no
    integer raises the type error for every [property_instances], the four
    sentinels included. *)
Theorem destroy_type_check_first (env : Env) (property_instances : option string)
    (instance_id : value) (st : State) :
  (forall z, instance_id <> VInt z) ->
  kim_property_destroy env property_instances instance_id st = (inl InputTypeError, st).
Proof.
  intros Hv. destruct instance_id as [|z|s]; try done. by destruct (Hv z).
Qed.

Lemma destroy_type_check_first_witness :
  kim_property_destroy Ref.env None (VStr "1") Ref.baseline
  = (inl InputTypeError, Ref.baseline) /\
  kim_property_destroy Ref.env (Some "None") VNil Ref.baseline
  = (inl InputTypeError, Ref.baseline) /\
  kim_property_destroy Ref.env (Some "") (VStr "1") Ref.baseline
  = (inl InputTypeError, Ref.baseline) /\
  kim_property_destroy Ref.env (Some "[]") (VStr "1") Ref.baseline
  = (inl InputTypeError, Ref.baseline).
Proof.
  split; [|split; [|split]]; apply destroy_type_check_first; intros z; discriminate.
Defined.

(** * Further properties *)

(** ** Every way [unset_property_id] can end *)

Lemma unset_cases v st :
  unset_property_id v st = (inr tt, st) \/
  exists pid ids,
    v = VStr pid /\ new_property_ids st = Some ids /\ pid ∈ ids /\
    ((kim_properties st !! pid = None /\
      unset_property_id v st = (inl KeyError, st)) \/
     (is_Some (kim_properties st !! pid) /\
      (property_id_to_property_name st !! pid = None \/
       exists n, property_id_to_property_name st !! pid = Some n /\
                 property_name_to_property_id st !! n = None) /\
      unset_property_id v st = (inl KeyError, half_unset_state st pid)) \/
     (exists n, is_Some (kim_properties st !! pid) /\
        property_id_to_property_name st !! pid = Some n /\
        is_Some (property_name_to_property_id st !! n) /\
        unset_property_id v st = (inr tt, unset_state st pid n ids))).
Proof.
  destruct (new_property_ids st) as [ids|] eqn:Hids.
  2:{ left. unfold unset_property_id, bind, get. by rewrite Hids. }
  destruct v as [|z|pid]; try (left; by apply unset_not_string).
  destruct (decide (pid ∈ ids)) as [Hin|Hout].
  2:{ left. apply unset_not_dynamic. intros (ids' & H & Hin). congruence. }
  right. exists pid, ids. split; [done|]. split; [done|]. split; [done|].
  destruct (kim_properties st !! pid) as [d|] eqn:Hk.
  2:{ left. split; [done|]. by apply (unset_unregistered pid ids). }
  right.
  destruct (property_id_to_property_name st !! pid) as [n|] eqn:Hi.
  2:{ left. split; [eauto|]. split; [by left|]. unfold unset_property_id, bind, get.
      rewrite Hids, bool_decide_eq_true_2 by done.
      unfold del_kim_properties. rewrite Hk.
      unfold get_property_id_to_property_name. simpl. by rewrite Hi. }
  destruct (property_name_to_property_id st !! n) as [q|] eqn:Hq.
  - right. exists n. split; [eauto|]. split; [done|]. split; [eauto|].
    apply (unset_removes pid n ids d); eauto.
  - left. split; [eauto|]. split; [right; eauto|]. unfold unset_property_id, bind, get.
    rewrite Hids, bool_decide_eq_true_2 by done.
    unfold del_kim_properties. rewrite Hk.
    unfold get_property_id_to_property_name. simpl. rewrite Hi.
    unfold del_property_name_to_property_id. simpl. by rewrite Hq.
Qed.

(** A property of states that [unset_property_id] keeps is kept by the
    loop and by [kim_property_destroy]. *)
Lemma destroy_loop_invariant (P : State -> Prop) fuel v i l st :
  (forall w st0, P st0 -> P (unset_property_id w st0).2) ->
  P st -> P (destroy_loop fuel v i l st).2.
Proof.
  intros HP. revert i l st.
  induction fuel as [|fuel IH]; intros i l st Hst; simpl; [done|].
  destruct (l !! i) as [a|]; [|done].
  destruct (a !! "instance-id") as [w|]; [|done].
  destruct (decide (v = w)) as [Heq|Hne]; [|by apply IH].
  destruct (a !! "property-id") as [pid|]; [|done].
  unfold bind. pose proof (HP pid st Hst) as Hu.
  destruct (unset_property_id pid st) as [[e|[]] st']; simpl in Hu; [done|].
  by apply IH.
Qed.

Lemma destroy_invariant (P : State -> Prop) env pi v st :
  (forall w st0, P st0 -> P (unset_property_id w st0).2) ->
  P st -> P (kim_property_destroy env pi v st).2.
Proof.
  intros HP Hst. unfold kim_property_destroy.
  destruct v as [|z|s]; try done.
  destruct pi as [text|]; [|done].
  destruct (_ || _); [done|].
  destruct (kim_edn_loads env text) as [l|]; [|done].
  unfold bind.
  pose proof (destroy_loop_invariant P (length l) (VInt z) 0 l st HP Hst) as Hd.
  by destruct (destroy_loop (length l) (VInt z) 0 l st) as [[e|l'] st'].
Qed.

Lemma py_remove_sublist {A} `{EqDecision A} (x : A) l : py_remove x l `sublist_of` l.
Proof.
  induction l as [|y l IH]; simpl; [done|].
  destruct (decide (x = y)); [by apply sublist_cons|by apply sublist_skip].
Qed.

Lemma py_remove_elem_of {A} `{EqDecision A} (x y : A) l :
  y ∈ py_remove x l -> y ∈ l.
Proof. intros H. eapply elem_of_sublist; [exact H|apply py_remove_sublist]. Qed.

Lemma py_remove_last {A} `{EqDecision A} (x : A) l :
  x ∉ l -> py_remove x (l ++ [x]) = l.
Proof. intros H. rewrite py_remove_middle by done. apply app_nil_r. Qed.

(** ** The registry seen through [get_properties] *)

Lemma unset_shrinks v st0 :
  kim_properties (unset_property_id v st0).2 ⊆ kim_properties st0 /\
  forall i, ~ dynamic st0 i ->
    ~ dynamic (unset_property_id v st0).2 i /\
    kim_properties (unset_property_id v st0).2 !! i = kim_properties st0 !! i /\
    property_id_to_property_name (unset_property_id v st0).2 !! i
    = property_id_to_property_name st0 !! i.
Proof.
  destruct (unset_cases v st0)
    as [->|(pid & ids & -> & Hids & Hin & [[_ ->]|[(_ & _ & ->)|(n & _ & _ & _ & ->)]])];
    simpl; try done.
  - split; [apply delete_subseteq|]. intros i Hi.
    assert (i <> pid) by (intros ->; apply Hi; by exists ids).
    by rewrite lookup_delete_ne.
  - split; [apply delete_subseteq|]. intros i Hi.
    assert (i <> pid) by (intros ->; apply Hi; by exists ids).
    rewrite !lookup_delete_ne by done. split; [|done].
    intros (ids' & Hids' & Hin'). simpl in Hids'.
    destruct (decide _); [done|]. injection Hids' as <-.
    apply Hi. exists ids. split; [done|]. by apply py_remove_elem_of in Hin'.
Qed.

Lemma destroy_shrinks env pi v st :
  kim_properties (kim_property_destroy env pi v st).2 ⊆ kim_properties st /\
  forall i, ~ dynamic st i ->
    ~ dynamic (kim_property_destroy env pi v st).2 i /\
    kim_properties (kim_property_destroy env pi v st).2 !! i = kim_properties st !! i /\
    property_id_to_property_name (kim_property_destroy env pi v st).2 !! i
    = property_id_to_property_name st !! i.
Proof.
  apply (destroy_invariant
    (fun st0 => kim_properties st0 ⊆ kim_properties st /\
       forall i, ~ dynamic st i ->
         ~ dynamic st0 i /\
         kim_properties st0 !! i = kim_properties st !! i /\
         property_id_to_property_name st0 !! i = property_id_to_property_name st !! i)).
  - intros w st0 [Hsub Hst0]. destruct (unset_shrinks w st0) as [Hsub' Hu].
    split; [by etrans|].
    intros i Hi. destruct (Hst0 i Hi) as (Hd & Hk & Hn).
    destruct (Hu i Hd) as (Hd' & Hk' & Hn'). split; [done|]. split; congruence.
  - done.
Qed.

(** X1: [kim_property_destroy] only ever shrinks the registry that
    [get_properties] returns, and what it takes out was in the dynamic
    list: a definition whose id is not in the list of new ids keeps its
    entry in the registry and in the id index, whatever the collection
    and the instance id, and whether or not the call raises. *)
Theorem destroy_removes_only_dynamic (env : Env) (property_instances : option string)
    (instance_id : value) (st : State) (m m' : gmap string definition) :
  (get_properties st).1 = inr m ->
  (get_properties (kim_property_destroy env property_instances instance_id st).2).1
  = inr m' ->
  m' ⊆ m /\
  forall i, ~ dynamic st i ->
    m' !! i = m !! i /\
    property_id_to_property_name
      (kim_property_destroy env property_instances instance_id st).2 !! i
    = property_id_to_property_name st !! i.
Proof.
  intros [= <-] [= <-].
  destruct (destroy_shrinks env property_instances instance_id st) as [Hsub H].
  split; [done|]. intros i Hi. by destruct (H i Hi) as (_ & ? & ?).
Qed.

(** X2: [kim_property_create] only ever grows the registry that
    [get_properties] returns: every definition registered before the call
    is registered, unchanged, after it, whether or not the call raises. *)
Theorem create_grows_registry (env : Env) (instance_id property_name : value)
    (property_instances : option string) (st : State) (m m' : gmap string definition) :
  (get_properties st).1 = inr m ->
  (get_properties
     (kim_property_create env instance_id property_name property_instances st).2).1
  = inr m' ->
  m ⊆ m'.
Proof.
  intros [= <-] [= <-].
  destruct (create_state_cases env instance_id property_name property_instances st)
    as [->|(p & pd & pid & _ & _ & _ & Hk & ->)]; [done|].
  simpl. by apply insert_subseteq.
Qed.

Lemma destroy_removes_only_dynamic_witness :
  kim_properties
    (kim_property_destroy Ref.env (Some (Ref.dumps [Ex.foo_a_1])) (VInt 1) Ex.st_foo_a).2
  ⊆ kim_properties Ex.st_foo_a /\
  forall i, ~ dynamic Ex.st_foo_a i ->
    kim_properties
      (kim_property_destroy Ref.env (Some (Ref.dumps [Ex.foo_a_1])) (VInt 1) Ex.st_foo_a).2
      !! i
    = kim_properties Ex.st_foo_a !! i /\
    property_id_to_property_name
      (kim_property_destroy Ref.env (Some (Ref.dumps [Ex.foo_a_1])) (VInt 1) Ex.st_foo_a).2
      !! i
    = property_id_to_property_name Ex.st_foo_a !! i.
Proof.
  exact (destroy_removes_only_dynamic Ref.env (Some (Ref.dumps [Ex.foo_a_1])) (VInt 1)
           Ex.st_foo_a _ _ eq_refl eq_refl).
Defined.

Lemma create_grows_registry_witness :
  kim_properties Ref.baseline
  ⊆ kim_properties
      (kim_property_create Ref.env (VInt 1) (VStr "volume.edn") None Ref.baseline).2.
Proof.
  exact (create_grows_registry Ref.env (VInt 1) (VStr "volume.edn") None Ref.baseline
           _ _ eq_refl eq_refl).
Defined.

(** ** The list of new ids *)

Lemma unset_dynamic_list_ok v st :
  dynamic_list_ok st -> dynamic_list_ok (unset_property_id v st).2.
Proof.
  unfold dynamic_list_ok. intros Hok.
  destruct (unset_cases v st)
    as [->|(pid & ids & -> & Hids & Hin & [[_ ->]|[(_ & _ & ->)|(n & _ & _ & _ & ->)]])];
    simpl; try done.
  destruct (decide (length (py_remove pid ids) = 0%nat)) as [|Hne]; [done|].
  intros [= H]. by rewrite H in Hne.
Qed.

(** X3: the list of new ids is never left empty: in a state where it is
    [None] or non-empty, it is so again after [kim_property_create],
    after [kim_property_destroy] and after [unset_property_id], whether
    or not they raise ([unset_property_id] resets it to [None] when it
    removes the last id). *)
Theorem dynamic_list_never_empty (env : Env) (st : State) :
  dynamic_list_ok st ->
  (forall instance_id property_name property_instances,
      dynamic_list_ok
        (kim_property_create env instance_id property_name property_instances st).2) /\
  (forall property_instances instance_id,
      dynamic_list_ok (kim_property_destroy env property_instances instance_id st).2) /\
  (forall property_id, dynamic_list_ok (unset_property_id property_id st).2).
Proof.
  intros Hok. split; [|split].
  - intros instance_id property_name pi.
    destruct (create_state_cases env instance_id property_name pi st)
      as [->|(p & pd & pid & _ & _ & _ & _ & ->)]; [done|].
    unfold dynamic_list_ok. simpl. intros [= H].
    by apply app_eq_nil in H as [_ ?].
  - intros pi instance_id. by apply destroy_invariant; [apply unset_dynamic_list_ok|].
  - intros v. by apply unset_dynamic_list_ok.
Qed.

Lemma dynamic_list_never_empty_witness :
  dynamic_list_ok
    (kim_property_create Ref.env (VInt 1) (VStr "foo-a.edn") None Ref.baseline).2 /\
  dynamic_list_ok
    (kim_property_destroy Ref.env (Some (Ref.dumps [Ex.foo_a_1])) (VInt 1) Ex.st_foo_a).2 /\
  dynamic_list_ok (unset_property_id (VStr Ref.foo_a_id) Ex.st_foo_a).2.
Proof.
  split; [|split].
  - apply (dynamic_list_never_empty Ref.env Ref.baseline). discriminate.
  - apply (dynamic_list_never_empty Ref.env Ex.st_foo_a). compute_done.
  - apply (dynamic_list_never_empty Ref.env Ex.st_foo_a). compute_done.
Defined.

Lemma unset_wf v st :
  registry_consistent st -> dynamic_wf st ->
  dynamic_wf (unset_property_id v st).2.
Proof.
  intros Hc Hw.
  destruct (unset_cases v st)
    as [->|(pid & ids & -> & Hids & Hin &
            [[_ ->]|[([d Hk] & Hbad & _)|(n & _ & Hn & _ & ->)]])];
    simpl; try done.
  - exfalso. destruct (proj2 (ids_registered st Hc pid)) as [n Hn]; [eauto|].
    destruct Hbad as [Hi|(n' & Hi & Hq)]; [congruence|].
    apply (indices_inverse st Hc) in Hi. congruence.
  - pose proof (dynamic_nodup st Hw ids Hids) as Hnd. split; simpl.
    + intros i (ids' & Hids' & Hin'). simpl in Hids'.
      destruct (decide _); [done|]. injection Hids' as <-.
      assert (i <> pid) by (intros ->; by apply (py_remove_NoDup pid ids)).
      rewrite lookup_delete_ne by done.
      apply (dynamic_registered st Hw). exists ids. split; [done|].
      by apply py_remove_elem_of in Hin'.
    + intros ids' Hids'. destruct (decide _); [done|]. injection Hids' as <-.
      apply (sublist_NoDup _ ids); [done|apply py_remove_sublist].
Qed.

Lemma registered_state_wf env st pid pd :
  dynamic_wf st -> kim_properties st !! pid = None ->
  dynamic_wf (registered_state env st pid pd).
Proof.
  intros Hw Hk.
  assert (Hout : forall ids, new_property_ids st = Some ids -> pid ∉ ids).
  { intros ids Hids Hin.
    destruct (dynamic_registered st Hw pid) as [d Hd]; [by exists ids|congruence]. }
  split; simpl.
  - intros i (ids' & [= <-] & Hin).
    destruct (decide (i = pid)) as [->|Hne]; [rewrite lookup_insert_eq; eauto|].
    rewrite lookup_insert_ne by done. apply (dynamic_registered st Hw).
    apply elem_of_app in Hin as [Hin|Hin]; [|apply list_elem_of_singleton in Hin; done].
    destruct (new_property_ids st) as [ids|] eqn:Hids; simpl in Hin.
    + by exists ids.
    + by apply elem_of_nil in Hin.
  - intros ids' [= <-].
    destruct (new_property_ids st) as [ids|] eqn:Hids; simpl.
    + apply NoDup_app. split; [by apply (dynamic_nodup st Hw)|]. split.
      * intros x Hx ->%list_elem_of_singleton. by apply (Hout ids).
      * apply NoDup_singleton.
    + apply NoDup_singleton.
Qed.

(** X4: in a state whose indices are consistent with the registry, the
    list of new ids stays a list without repetition of ids that the
    registry holds, through [kim_property_create], [kim_property_destroy]
    and [unset_property_id], whether or not they raise. *)
Theorem dynamic_list_well_formed (env : Env) (st : State) :
  registry_consistent st -> dynamic_wf st ->
  (forall instance_id property_name property_instances,
      dynamic_wf
        (kim_property_create env instance_id property_name property_instances st).2) /\
  (forall property_instances instance_id,
      dynamic_wf (kim_property_destroy env property_instances instance_id st).2) /\
  (forall property_id, dynamic_wf (unset_property_id property_id st).2).
Proof.
  intros Hc Hw. split; [|split].
  - intros instance_id property_name pi.
    destruct (create_state_cases env instance_id property_name pi st)
      as [->|(p & pd & pid & _ & _ & _ & Hk & ->)]; [done|].
    by apply registered_state_wf.
  - intros pi instance_id.
    apply (destroy_invariant (fun s => registry_consistent s /\ dynamic_wf s));
      [|done].
    intros w st0 [Hc0 Hw0]. split; [by apply unset_consistent|by apply unset_wf].
  - intros v. by apply unset_wf.
Qed.

Lemma ref_baseline_wf : dynamic_wf Ref.baseline.
Proof. split; [intros i (ids & [=] & _)|intros ids [=]]. Qed.

Lemma dynamic_list_well_formed_witness :
  dynamic_wf
    (kim_property_create Ref.env (VInt 1) (VStr "foo-a.edn") None Ref.baseline).2 /\
  dynamic_wf
    (kim_property_destroy Ref.env (Some (Ref.dumps [Ex.cohesive_1])) (VInt 1) Ref.baseline).2 /\
  dynamic_wf (unset_property_id (VStr Ref.cohesive_id) Ref.baseline).2.
Proof.
  destruct (dynamic_list_well_formed Ref.env Ref.baseline
              ref_baseline_consistent ref_baseline_wf) as (Hc & Hd & Hu).
  split; [apply Hc|]. split; [apply Hd|apply Hu].
Defined.

(** ** Failures of [kim_property_create] *)

Lemma check_repeat_inv v C st st' :
  check_repeat v C st = (inr tt, st') -> no_repeat v C.
Proof.
  induction C as [|a C IH]; simpl; intros H; [constructor|].
  destruct (a !! "instance-id") as [w|] eqn:Hw; [|done].
  destruct (decide (v = w)) as [|Hne]; [done|].
  constructor; [exists w; split; [done|congruence]|by apply IH].
Qed.

Lemma open_collection_no_repeat env v pi st C st' :
  open_collection env v pi st = (inr C, st') -> no_repeat v C.
Proof.
  destruct pi as [text|]; simpl.
  - destruct (kim_edn_loads env text) as [l|]; [|done].
    unfold bind. destruct (check_repeat v l st) as [[e|[]] st''] eqn:Hc; [done|].
    intros [= <- _]. by apply check_repeat_inv in Hc.
  - intros [= <- _]. constructor.
Qed.

Lemma insert_by_key_error x l e : insert_by_key x l = inl e -> e = TypeError.
Proof.
  induction l as [|y l IH]; simpl; [done|].
  destruct (py_lt y.1 x.1) as [[]|]; [| |congruence].
  - destruct (insert_by_key x l) as [e'|]; [|done]. intros [= <-]. by apply IH.
  - done.
Qed.

Lemma sort_keyed_error l e : sort_keyed l = inl e -> e = TypeError.
Proof.
  induction l as [|x l IH]; simpl; [done|].
  destruct (sort_keyed l) as [e'|s]; [intros [= <-]; by apply IH|].
  apply insert_by_key_error.
Qed.

Lemma sorted_by_instance_id_error l e :
  Forall (fun r => is_Some (r !! "instance-id")) l ->
  sorted_by_instance_id l = inl e -> e = TypeError.
Proof.
  intros HF. unfold sorted_by_instance_id.
  destruct (keyed_total l HF) as [kl ->].
  destruct (sort_keyed kl) as [e'|s] eqn:Hs; [|done].
  intros [= <-]. by apply sort_keyed_error in Hs.
Qed.

Lemma register_new env p pd pid st :
  kim_edn_load env p = Some pd ->
  check_property_definition env pd = true ->
  pd !! "property-id" = Some (VStr pid) ->
  kim_properties st !! pid = None ->
  register_from_file env p st = (inr pid, registered_state env st pid pd).
Proof.
  intros Hl Hc Hid Hk. unfold register_from_file. rewrite Hl, Hc, Hid. simpl.
  unfold bind, get. rewrite bool_decide_eq_false_2; [done|].
  rewrite Hk. by intros [? ?].
Qed.



(** ** Registration from a file, seen by the caller *)

(** On a collection of records with integer instance ids the last part of
    [kim_property_create] returns. *)
Lemma append_instance_total env z pid C st :
  integer_ids C ->
  exists L,
    append_instance env (VInt z) pid C st = (inr (kim_edn_dumps env L), st) /\
    L ≡ₚ C ++ [new_property_instance pid (VInt z)] /\
    Sorted instance_id_le L.
Proof.
  intros Hint. unfold append_instance, bind, lift, ret.
  set (new := new_property_instance pid (VInt z)).
  assert (Hnew : new !! "instance-id" = Some (VInt z)) by apply lookup_insert_eq.
  destruct (decide (1 < length (C ++ [new]))%nat) as [Hlen|Hlen].
  - destruct (sorted_by_instance_id_total (C ++ [new])) as [L HL].
    { apply Forall_app. split; [done|]. apply Forall_singleton. by exists z. }
    rewrite HL. exists L. split; [done|].
    apply sorted_by_instance_id_spec; [done|].
    exists new, z. split; [set_solver|done].
  - exists (C ++ [new]). split; [done|]. split; [done|].
    destruct C as [|r C]; [by repeat constructor|].
    rewrite length_app in Hlen. simpl in Hlen. lia.
Qed.

(** X6: with arguments that pass the checks and a collection of records
    with integer instance ids, a reference to a file that holds a valid
    definition whose id the registry does not have makes
    [kim_property_create] succeed and register it: [get_properties] then
    returns the registry with the definition added under its id, the two
    indices bind the id and its short name to each other, the id is in
    the list of new ids, and a later resolution of the short name (when
    no file has that name) gives the id. *)
Theorem create_from_file_registers (env : Env) (z : Z) (p : string)
    (property_instances : option string) (C : list record)
    (pd : definition) (pid : string) (st : State) :
  check_instance_id_format env z = true ->
  opens env property_instances C -> no_repeat (VInt z) C -> integer_ids C ->
  isfile env p = true ->
  kim_edn_load env p = Some pd ->
  check_property_definition env pd = true ->
  pd !! "property-id" = Some (VStr pid) ->
  kim_properties st !! pid = None ->
  exists out st',
    kim_property_create env (VInt z) (VStr p) property_instances st = (inr out, st') /\
    (get_properties st').1 = inr (<[pid := pd]> (kim_properties st)) /\
    property_id_to_property_name st' !! pid = Some (get_property_id_path env pid) /\
    property_name_to_property_id st' !! get_property_id_path env pid = Some pid /\
    dynamic st' pid /\
    (isfile env (get_property_id_path env pid) = false ->
     resolve_property env (get_property_id_path env pid) st' = (inr pid, st')).
Proof.
  intros Hz Ho Hn Hint Hf Hl Hc Hid Hk.
  rewrite (create_unfold env z p _ C) by done.
  unfold bind. rewrite resolve_file by done.
  rewrite (register_new env p pd pid) by done.
  set (st' := registered_state env st pid pd).
  destruct (append_instance_total env z pid C st' Hint) as (L & -> & _ & _).
  exists (kim_edn_dumps env L), st'. split; [done|].
  assert (Hname : property_name_to_property_id st' !! get_property_id_path env pid
                  = Some pid) by apply lookup_insert_eq.
  split; [done|]. split; [apply lookup_insert_eq|]. split; [done|]. split.
  - eexists. split; [reflexivity|]. set_solver.
  - intros Hnf. by apply resolve_name.
Qed.

Lemma create_from_file_registers_witness :
  exists out st',
    kim_property_create Ref.env (VInt 2) (VStr "volume.edn")
      (Some (Ref.dumps [Ex.cohesive_1])) Ref.baseline = (inr out, st') /\
    (get_properties st').1
    = inr (<[Ref.volume_id := Ref.def_of Ref.volume_id]> (kim_properties Ref.baseline)) /\
    property_id_to_property_name st' !! Ref.volume_id
    = Some (get_property_id_path Ref.env Ref.volume_id) /\
    property_name_to_property_id st' !! get_property_id_path Ref.env Ref.volume_id
    = Some Ref.volume_id /\
    dynamic st' Ref.volume_id /\
    (isfile Ref.env (get_property_id_path Ref.env Ref.volume_id) = false ->
     resolve_property Ref.env (get_property_id_path Ref.env Ref.volume_id) st'
     = (inr Ref.volume_id, st')).
Proof.
  apply (create_from_file_registers Ref.env 2 "volume.edn"
           (Some (Ref.dumps [Ex.cohesive_1])) [Ex.cohesive_1]).
  - reflexivity.
  - apply ref_loads_dumps.
  - apply Forall_singleton. exists (VInt 1). split; [reflexivity|discriminate].
  - apply Forall_singleton. exists 1. reflexivity.
  - reflexivity.
  - reflexivity.
  - reflexivity.
  - reflexivity.
  - compute_done.
Defined.

(** ** The collection that [kim_property_create] returns *)

Lemma create_output env instance_id property_name pi C st st' out :
  opens env pi C ->
  kim_property_create env instance_id property_name pi st = (inr out, st') ->
  exists z pid L,
    instance_id = VInt z /\ no_repeat (VInt z) C /\
    out = kim_edn_dumps env L /\
    L ≡ₚ C ++ [new_property_instance pid (VInt z)] /\
    Sorted instance_id_le L.
Proof.
  intros Ho H. unfold kim_property_create in H.
  destruct instance_id as [|z|s]; try done.
  destruct (check_instance_id_format env z); simpl in H; [|done].
  destruct property_name as [| |p]; try done.
  unfold bind in H.
  destruct (open_collection env (VInt z) pi st) as [[e|C'] st1] eqn:Hopen; [done|].
  pose proof (open_collection_no_repeat _ _ _ _ _ _ Hopen) as Hn.
  apply open_collection_inv in Hopen as [Ho' ->].
  assert (C' = C) as -> by (destruct pi; simpl in *; congruence).
  destruct (resolve_property env p st) as [[e|pid] st2]; [done|].
  unfold append_instance, bind, lift, ret in H.
  set (new := new_property_instance pid (VInt z)) in *.
  exists z, pid.
  destruct (decide (1 < length (C ++ [new]))%nat) as [Hlen|Hlen].
  - destruct (sorted_by_instance_id (C ++ [new])) as [e|L] eqn:Hsort; [done|].
    injection H as <- <-.
    destruct (sorted_by_instance_id_spec _ _ Hsort) as [Hp Hs].
    { exists new, z. split; [set_solver|]. apply lookup_insert_eq. }
    by exists L.
  - injection H as <- <-. exists (C ++ [new]). repeat split; try done.
    destruct C as [|r C]; [by repeat constructor|].
    rewrite length_app in Hlen. simpl in Hlen. lia.
Qed.

Lemma Sorted_le_lt l :
  Sorted instance_id_le l -> NoDup (instance_ids l) -> Sorted instance_id_lt l.
Proof.
  induction 1 as [|x l HS IH Hhd]; intros Hnd; [constructor|].
  simpl in Hnd. apply NoDup_cons in Hnd as [Hx Hnd].
  constructor; [by apply IH|].
  destruct Hhd as [|y l (a & b & Ha & Hb & Hab)]; constructor.
  exists a, b. split; [done|]. split; [done|].
  assert (a <> b); [|lia]. intros ->. apply Hx. simpl. rewrite Ha, <- Hb. left.
Qed.

(** X7: [kim_property_create] keeps a collection well formed: when the
    instance ids of the decoded collection are pairwise different, those
    of the collection it returns are pairwise different too, and the
    records are in strictly ascending order of instance id. *)
Theorem create_keeps_collection_invariant (env : Env) (instance_id property_name : value)
    (property_instances : option string) (C : list record)
    (st st' : State) (out : string) :
  opens env property_instances C ->
  NoDup (instance_ids C) ->
  kim_property_create env instance_id property_name property_instances st = (inr out, st') ->
  exists L,
    out = kim_edn_dumps env L /\
    NoDup (instance_ids L) /\
    Sorted instance_id_lt L.
Proof.
  intros Ho Hnd H.
  destruct (create_output _ _ _ _ _ _ _ _ Ho H) as (z & pid & L & -> & Hn & -> & Hp & Hs).
  exists L. split; [done|].
  assert (Hids : NoDup (instance_ids L)).
  { unfold instance_ids. rewrite Hp, fmap_app. apply NoDup_app. split; [done|]. split.
    - intros o Ho1 Ho2%list_elem_of_singleton. subst o.
      apply list_elem_of_fmap in Ho1 as (r & Hr & Hin).
      unfold no_repeat in Hn. rewrite Forall_forall in Hn.
      destruct (Hn r Hin) as (w & Hw & Hne).
      unfold new_property_instance in Hr. rewrite lookup_insert_eq in Hr. congruence.
    - apply NoDup_singleton. }
  split; [done|]. by apply Sorted_le_lt.
Qed.

Lemma create_keeps_collection_invariant_witness :
  exists L,
    Ref.dumps [Ex.atomic_mass_1; Ex.atomic_mass_2; Ex.cohesive_3] = kim_edn_dumps Ref.env L /\
    NoDup (instance_ids L) /\
    Sorted instance_id_lt L.
Proof.
  apply (create_keeps_collection_invariant Ref.env (VInt 1) (VStr Ref.atomic_mass_id)
           (Some (Ref.dumps [Ex.cohesive_3; Ex.atomic_mass_2]))
           [Ex.cohesive_3; Ex.atomic_mass_2] Ref.baseline Ref.baseline).
  - apply ref_loads_dumps.
  - compute_done.
  - compute_done.
Defined.

(** ** What [kim_property_destroy] returns *)

Lemma destroy_loop_sublist fuel v i l st l' st' :
  destroy_loop fuel v i l st = (inr l', st') -> l' `sublist_of` l.
Proof.
  revert i l st. induction fuel as [|fuel IH]; intros i l st; simpl.
  { by intros [= <- _]. }
  destruct (l !! i) as [a|]; [|by intros [= <- _]].
  destruct (a !! "instance-id") as [w|]; [|done].
  destruct (decide (v = w)) as [Heq|Hne]; [|by apply IH].
  destruct (a !! "property-id") as [pid|]; [|done].
  unfold bind. destruct (unset_property_id pid st) as [[e|[]] st1]; [done|].
  intros H. apply IH in H. etrans; [exact H|apply py_remove_sublist].
Qed.

(** X10: whatever the decoded collection, well formed or not, a
    [kim_property_destroy] that returns has encoded a collection obtained
    from it by leaving records out: no record is added, changed or moved. *)
Theorem destroy_returns_sublist (env : Env) (text : string) (l : list record)
    (instance_id : value) (st st' : State) (out : string) :
  empty_sentinel text = false ->
  kim_edn_loads env text = Some l ->
  kim_property_destroy env (Some text) instance_id st = (inr out, st') ->
  exists l', out = kim_edn_dumps env l' /\ l' `sublist_of` l.
Proof.
  intros Hs Hl H. unfold kim_property_destroy in H.
  destruct instance_id as [|z|s]; try done.
  unfold empty_sentinel in Hs. rewrite Hs, Hl in H. unfold bind in H.
  destruct (destroy_loop (length l) (VInt z) 0 l st) as [[e|l'] st1] eqn:Hloop; [done|].
  injection H as <- <-. exists l'. split; [done|]. by apply destroy_loop_sublist in Hloop.
Qed.

Lemma destroy_returns_sublist_witness :
  exists l',
    Ref.dumps [Ex.atomic_mass_1] = kim_edn_dumps Ref.env l' /\
    l' `sublist_of` [Ex.cohesive_1; Ex.atomic_mass_1].
Proof.
  apply (destroy_returns_sublist Ref.env (Ref.dumps [Ex.cohesive_1; Ex.atomic_mass_1])
           [Ex.cohesive_1; Ex.atomic_mass_1] (VInt 1) Ref.baseline Ref.baseline).
  - apply ref_dumps_not_sentinel.
  - apply ref_loads_dumps.
  - compute_done.
Defined.

(** ** Creating an instance and destroying it again *)

Lemma instance_id_lt_trans : Transitive instance_id_lt.
Proof.
  intros x y w (a & b & Ha & Hb & Hab) (b' & c & Hb' & Hc & Hbc).
  exists a, c. split; [done|]. split; [done|].
  rewrite Hb in Hb'. injection Hb' as <-. lia.
Qed.

Lemma StronglySorted_lt_NoDup l :
  StronglySorted instance_id_lt l -> NoDup (instance_ids l).
Proof.
  induction 1 as [|x l HS IH Hx]; simpl; [constructor|].
  constructor; [|done].
  intros Hin. apply list_elem_of_fmap in Hin as (y & Hy & Hin).
  rewrite Forall_forall in Hx. destruct (Hx y Hin) as (a & b & Ha & Hb & Hab).
  rewrite Ha, Hb in Hy. injection Hy as ->. lia.
Qed.

(** Destroying, in any state, the instance that has just been appended to
    a well-formed collection gives the collection back and unsets the id
    of the instance. *)
Lemma destroy_of_created env z pid C L st :
  (forall l, kim_edn_loads env (kim_edn_dumps env l) = Some l) ->
  (forall l, l <> [] -> empty_sentinel (kim_edn_dumps env l) = false) ->
  Sorted instance_id_lt C -> no_repeat (VInt z) C ->
  L ≡ₚ C ++ [new_property_instance pid (VInt z)] ->
  Sorted instance_id_le L ->
  kim_property_destroy env (Some (kim_edn_dumps env L)) (VInt z) st
  = (unset_property_id (VStr pid) ;;; ret (kim_edn_dumps env C)) st.
Proof.
  intros Hrt Hns HC Hn Hp HL.
  pose proof instance_id_lt_trans as Htrans.
  set (new := new_property_instance pid (VInt z)) in *.
  assert (Hnew : new !! "instance-id" = Some (VInt z)) by apply lookup_insert_eq.
  assert (Hnewp : new !! "property-id" = Some (VStr pid)).
  { unfold new, new_property_instance. rewrite lookup_insert_ne by done.
    apply lookup_insert_eq. }
  assert (Hin : new ∈ L) by (rewrite Hp; set_solver).
  apply list_elem_of_split in Hin as (l1 & l2 & ->).
  assert (Hp' : C ≡ₚ l1 ++ l2).
  { apply Permutation_cons_app_inv with (a := new).
    rewrite Hp. apply Permutation_cons_append. }
  assert (Hn' : no_repeat (VInt z) (l1 ++ l2)) by (unfold no_repeat; by rewrite <- Hp').
  apply Forall_app in Hn' as [Hn1 Hn2].
  apply Sorted_StronglySorted in HC; [|done].
  assert (HidsL : NoDup (instance_ids (l1 ++ new :: l2))).
  { unfold instance_ids. rewrite Hp, fmap_app. apply NoDup_app.
    split; [by apply StronglySorted_lt_NoDup|]. split; [|apply NoDup_singleton].
    intros o Ho1 Ho2%list_elem_of_singleton. subst o.
    apply list_elem_of_fmap in Ho1 as (r & Hr & Hin).
    unfold no_repeat in Hn. rewrite Forall_forall in Hn.
    destruct (Hn r Hin) as (w & Hw & Hne). simpl in Hr. congruence. }
  assert (HS : StronglySorted instance_id_lt (l1 ++ l2)).
  { apply Sorted_le_lt in HL; [|done].
    apply Sorted_StronglySorted in HL; [|done].
    apply StronglySorted_app in HL as (H12 & H1 & H2).
    apply StronglySorted_cons in H2 as [_ H2].
    apply StronglySorted_app. split; [|done].
    intros x1 x2 Hx1 Hx2. apply H12; [done|by right]. }
  assert (l1 ++ l2 = C) as HeqC.
  { apply (StronglySorted_unique_strong instance_id_lt); [|done|done|done].
    intros x1 x2 _ _ (a & b & Ha & Hb & Hab) (b' & a' & Hb' & Ha' & Hba).
    rewrite Ha in Ha'. rewrite Hb in Hb'. injection Ha' as <-. injection Hb' as <-. lia. }
  unfold kim_property_destroy.
  specialize (Hns (l1 ++ new :: l2)). unfold empty_sentinel in Hns.
  rewrite Hns by (by destruct l1). rewrite Hrt.
  unfold bind at 1.
  rewrite (destroy_loop_single _ l1 new l2 (VStr pid)) by done.
  rewrite HeqC. unfold bind, ret.
  by destruct (unset_property_id (VStr pid) st) as [[e|[]] st1].
Qed.

(** Unsetting the id that has just been registered from a file gives the
    state of before the registration. *)
Lemma unset_of_registered env st pid pd :
  registry_consistent st -> dynamic_wf st -> dynamic_list_ok st ->
  kim_properties st !! pid = None ->
  property_name_to_property_id st !! get_property_id_path env pid = None ->
  unset_property_id (VStr pid) (registered_state env st pid pd) = (inr tt, st).
Proof.
  intros Hc Hw Hok Hk Hfree.
  assert (Hi : property_id_to_property_name st !! pid = None).
  { destruct (property_id_to_property_name st !! pid) eqn:E; [|done].
    destruct (proj1 (ids_registered st Hc pid)) as [d Hd]; [eauto|congruence]. }
  set (ids := default [] (new_property_ids st)).
  assert (Hout : pid ∉ ids).
  { unfold ids. destruct (new_property_ids st) as [ids0|] eqn:Hids; simpl.
    - intros Hin. destruct (dynamic_registered st Hw pid) as [d Hd];
        [by exists ids0|congruence].
    - apply not_elem_of_nil. }
  rewrite (unset_removes pid (get_property_id_path env pid) (ids ++ [pid]) pd).
  - f_equal. unfold unset_state. simpl.
    rewrite !delete_insert_id by done. rewrite py_remove_last by done.
    destruct st as [k n2i i2n new]. simpl in *. f_equal.
    unfold ids, dynamic_list_ok in *. simpl in *.
    destruct new as [[|i0 ids0]|]; simpl; done.
  - done.
  - set_solver.
  - apply lookup_insert_eq.
  - apply lookup_insert_eq.
  - exists pid. apply lookup_insert_eq.
Qed.

Lemma ref_dumps_no_sentinel l :
  l <> [] -> empty_sentinel (kim_edn_dumps Ref.env l) = false.
Proof. destruct l as [|r l]; [done|]. intros _. apply ref_dumps_not_sentinel. Qed.

(** X11: creating an instance and destroying it again gives the
    collection back.  With a codec that round-trips and never writes a
    non-empty collection as one of the empty sentinels, a collection [C]
    in strictly ascending order of integer instance ids that does not have
    [instance_id], and a reference that is no file and resolves to a
    definition that is not in the list of new ids:
    [kim_property_create] succeeds and [kim_property_destroy] of its
    output and [instance_id] returns the encoding of [C]; the module
    state is the same throughout. *)
Theorem create_then_destroy_known (env : Env) (z : Z) (p pid : string)
    (property_instances : option string) (C : list record) (st : State) :
  (forall l, kim_edn_loads env (kim_edn_dumps env l) = Some l) ->
  (forall l, l <> [] -> empty_sentinel (kim_edn_dumps env l) = false) ->
  check_instance_id_format env z = true ->
  opens env property_instances C ->
  integer_ids C -> Sorted instance_id_lt C -> no_repeat (VInt z) C ->
  isfile env p = false ->
  known_reference st p = Some pid ->
  ~ dynamic st pid ->
  exists out,
    kim_property_create env (VInt z) (VStr p) property_instances st = (inr out, st) /\
    kim_property_destroy env (Some out) (VInt z) st = (inr (kim_edn_dumps env C), st).
Proof.
  intros Hrt Hns Hz Ho Hint HC Hn Hf Hk Hd.
  rewrite (create_unfold env z p _ C) by done.
  unfold bind at 1. rewrite (resolve_known env p pid) by done.
  destruct (append_instance_total env z pid C st Hint) as (L & -> & Hp & HL).
  exists (kim_edn_dumps env L). split; [done|].
  rewrite (destroy_of_created env z pid C L) by done.
  unfold bind, ret. by rewrite unset_not_dynamic.
Qed.

Lemma create_then_destroy_known_witness :
  exists out,
    kim_property_create Ref.env (VInt 2) (VStr "cohesive-energy-relation-cubic-crystal")
      (Some (Ref.dumps [Ex.atomic_mass_1; Ex.cohesive_3])) Ref.baseline
    = (inr out, Ref.baseline) /\
    kim_property_destroy Ref.env (Some out) (VInt 2) Ref.baseline
    = (inr (kim_edn_dumps Ref.env [Ex.atomic_mass_1; Ex.cohesive_3]), Ref.baseline).
Proof.
  apply (create_then_destroy_known Ref.env 2 "cohesive-energy-relation-cubic-crystal"
           Ref.cohesive_id).
  - exact ref_loads_dumps.
  - exact ref_dumps_no_sentinel.
  - reflexivity.
  - apply ref_loads_dumps.
  - repeat constructor; eexists; reflexivity.
  - repeat constructor. exists 1, 3. repeat split; lia.
  - repeat constructor; eexists; (split; [reflexivity|discriminate]).
  - reflexivity.
  - reflexivity.
  - intros (ids & Hids & _). discriminate Hids.
Defined.

(** X12: registering a definition from a file with an instance and
    destroying that instance undoes the registration.  In a state whose
    indices are consistent with the registry and whose list of new ids is
    well formed and [None] rather than empty, with a codec as in X11, a
    collection [C]
    in strictly ascending order of integer instance ids that does not have
    [instance_id], and a file that holds a valid definition whose id is
    not registered and whose short name is free in the name index:
    [kim_property_create] succeeds, and [kim_property_destroy] of its
    output and [instance_id] returns the encoding of [C] and leaves
    exactly the module state of before the creation. *)
Theorem create_then_destroy_from_file (env : Env) (z : Z) (p pid : string)
    (pd : definition) (property_instances : option string) (C : list record)
    (st : State) :
  (forall l, kim_edn_loads env (kim_edn_dumps env l) = Some l) ->
  (forall l, l <> [] -> empty_sentinel (kim_edn_dumps env l) = false) ->
  registry_consistent st -> dynamic_wf st -> dynamic_list_ok st ->
  check_instance_id_format env z = true ->
  opens env property_instances C ->
  integer_ids C -> Sorted instance_id_lt C -> no_repeat (VInt z) C ->
  isfile env p = true ->
  kim_edn_load env p = Some pd ->
  check_property_definition env pd = true ->
  pd !! "property-id" = Some (VStr pid) ->
  kim_properties st !! pid = None ->
  property_name_to_property_id st !! get_property_id_path env pid = None ->
  exists out st',
    kim_property_create env (VInt z) (VStr p) property_instances st = (inr out, st') /\
    dynamic st' pid /\
    kim_property_destroy env (Some out) (VInt z) st' = (inr (kim_edn_dumps env C), st).
Proof.
  intros Hrt Hns Hc Hw Hok Hz Ho Hint HC Hn Hf Hl Hchk Hid Hk Hfree.
  rewrite (create_unfold env z p _ C) by done.
  unfold bind at 1. rewrite resolve_file by done.
  rewrite (register_new env p pd pid) by done.
  set (st' := registered_state env st pid pd).
  destruct (append_instance_total env z pid C st' Hint) as (L & -> & Hp & HL).
  exists (kim_edn_dumps env L), st'. split; [done|]. split.
  { eexists. split; [reflexivity|]. set_solver. }
  rewrite (destroy_of_created env z pid C L) by done.
  unfold bind, ret. unfold st'. by rewrite unset_of_registered.
Qed.

Lemma create_then_destroy_from_file_witness :
  exists out st',
    kim_property_create Ref.env (VInt 2) (VStr "volume.edn")
      (Some (Ref.dumps [Ex.atomic_mass_1; Ex.cohesive_3])) Ref.baseline
    = (inr out, st') /\
    dynamic st' Ref.volume_id /\
    kim_property_destroy Ref.env (Some out) (VInt 2) st'
    = (inr (kim_edn_dumps Ref.env [Ex.atomic_mass_1; Ex.cohesive_3]), Ref.baseline).
Proof.
  apply (create_then_destroy_from_file Ref.env 2 "volume.edn" Ref.volume_id
           (Ref.def_of Ref.volume_id)).
  - exact ref_loads_dumps.
  - exact ref_dumps_no_sentinel.
  - exact ref_baseline_consistent.
  - exact ref_baseline_wf.
  - discriminate.
  - reflexivity.
  - apply ref_loads_dumps.
  - repeat constructor; eexists; reflexivity.
  - repeat constructor. exists 1, 3. repeat split; lia.
  - repeat constructor; eexists; (split; [reflexivity|discriminate]).
  - reflexivity.
  - reflexivity.
  - reflexivity.
  - reflexivity.
  - compute_done.
  - compute_done.
Defined.

(** ** Collections that cannot be extended, and argument checks *)

Lemma sorted_by_instance_id_integer l l' :
  sorted_by_instance_id l = inr l' ->
  (exists r a, r ∈ l /\ r !! "instance-id" = Some (VInt a)) ->
  integer_ids l.
Proof.
  unfold sorted_by_instance_id. intros H (r & a & Hin & Hr).
  destruct (keyed l) as [e|kl] eqn:Hk; [done|].
  destruct (sort_keyed kl) as [e|s] eqn:Hs; [done|].
  destruct (keyed_inv _ _ Hk) as [Hl HF].
  assert (Hint : Forall int_key kl).
  { eapply sort_keyed_int_keys; [exact Hs|].
    rewrite <- Hl in Hin. apply list_elem_of_fmap in Hin as ([k r'] & -> & Hin).
    apply Exists_exists. exists (k, r'). split; [done|].
    rewrite Forall_forall in HF. specialize (HF _ Hin).
    unfold key_of_record in HF. simpl in *. exists a. simpl. congruence. }
  subst l. clear -HF Hint. unfold integer_ids.
  induction kl as [|[k r'] kl IH]; [constructor|].
  apply Forall_cons in HF as [Hr HF]. apply Forall_cons in Hint as [[a Ha] Hint].
  simpl. constructor; [|by apply IH].
  unfold key_of_record in Hr. simpl in *. exists a. congruence.
Qed.

(** X13: a collection one of whose records has a string or [nil] as
    its instance id cannot be extended: with arguments that pass the
    checks and a known reference that is no file, [kim_property_create]
    raises [TypeError] (from the sort, after the new record has been
    appended: a string or [nil] cannot be ordered against the integer of
    the new record) and leaves the module state as it was. *)
Theorem create_rejects_non_integer_ids (env : Env) (z : Z) (p pid : string)
    (property_instances : option string) (C : list record) (st : State) :
  check_instance_id_format env z = true ->
  opens env property_instances C -> no_repeat (VInt z) C ->
  isfile env p = false ->
  known_reference st p = Some pid ->
  (exists r, r ∈ C /\
     (r !! "instance-id" = Some VNil \/ exists s, r !! "instance-id" = Some (VStr s))) ->
  kim_property_create env (VInt z) (VStr p) property_instances st = (inl TypeError, st).
Proof.
  intros Hz Ho Hn Hf Hk (r & Hin & Hr0).
  assert (Hr : forall a, r !! "instance-id" <> Some (VInt a)).
  { intros a Ha. destruct Hr0 as [Hr0|[s Hr0]]; congruence. }
  clear Hr0.
  rewrite (create_unfold env z p _ C) by done.
  unfold bind. rewrite (resolve_known env p pid) by done.
  unfold append_instance, bind, lift, ret.
  set (new := new_property_instance pid (VInt z)).
  assert (Hnew : new !! "instance-id" = Some (VInt z)) by apply lookup_insert_eq.
  rewrite decide_True.
  2:{ rewrite length_app. simpl. destruct C; [by apply elem_of_nil in Hin|simpl; lia]. }
  destruct (sorted_by_instance_id (C ++ [new])) as [e|L] eqn:Hsort.
  - apply sorted_by_instance_id_error in Hsort; [by subst e|].
    apply Forall_app. split; [|apply Forall_singleton; eauto].
    eapply Forall_impl; [exact Hn|]. intros r' (w & Hw & _). eauto.
  - exfalso. apply sorted_by_instance_id_integer in Hsort.
    + unfold integer_ids in Hsort. rewrite Forall_forall in Hsort.
      destruct (Hsort r) as [a Ha]; [set_solver|]. by apply (Hr a).
    + exists new, z. split; [set_solver|done].
Qed.

Lemma create_rejects_non_integer_ids_witness :
  kim_property_create Ref.env (VInt 1) (VStr "atomic-mass")
    (Some (Ref.dumps [Ex.string_id])) Ref.baseline
  = (inl TypeError, Ref.baseline).
Proof.
  apply (create_rejects_non_integer_ids Ref.env 1 "atomic-mass" Ref.atomic_mass_id
           _ [Ex.string_id]).
  - reflexivity.
  - apply ref_loads_dumps.
  - apply Forall_singleton. exists (VStr "a"). split; [reflexivity|discriminate].
  - reflexivity.
  - reflexivity.
  - exists Ex.string_id. split; [apply list_elem_of_here|].
    right. exists "a". reflexivity.
Defined.

(** X14: [kim_property_create] checks its arguments in this order, before
    it decodes the collection or reads the registry, and leaves the module
    state as it was: an instance id that is no integer raises the type
    error; an integer of invalid format raises the format error, whatever
    the property name is; with a valid instance id, a property name that
    is no string raises the type error, whatever the collection text
    is. *)
Theorem create_argument_checks (env : Env) (instance_id property_name : value)
    (property_instances : option string) (st : State) :
  ((forall z, instance_id <> VInt z) ->
   kim_property_create env instance_id property_name property_instances st
   = (inl InputTypeError, st)) /\
  (forall z, instance_id = VInt z -> check_instance_id_format env z = false ->
   kim_property_create env instance_id property_name property_instances st
   = (inl FormatError, st)) /\
  (forall z, instance_id = VInt z -> check_instance_id_format env z = true ->
   (forall p, property_name <> VStr p) ->
   kim_property_create env instance_id property_name property_instances st
   = (inl InputTypeError, st)).
Proof.
  split; [|split].
  - intros Hv. destruct instance_id as [|z|s]; try done. by destruct (Hv z).
  - intros z -> Hz. unfold kim_property_create. by rewrite Hz.
  - intros z -> Hz Hp. unfold kim_property_create. rewrite Hz. simpl.
    destruct property_name as [| |p]; try done. by destruct (Hp p).
Qed.

Lemma create_argument_checks_witness :
  kim_property_create Ref.env (VStr "1") (VStr "atomic-mass") None Ref.baseline
  = (inl InputTypeError, Ref.baseline) /\
  kim_property_create Ref.env (VInt 0) VNil (Some "not a collection") Ref.baseline
  = (inl FormatError, Ref.baseline) /\
  kim_property_create Ref.env (VInt 1) (VInt 7) (Some "not a collection") Ref.baseline
  = (inl InputTypeError, Ref.baseline).
Proof.
  split; [|split].
  - apply (proj1 (create_argument_checks Ref.env (VStr "1") (VStr "atomic-mass")
                     None Ref.baseline)). intros z. discriminate.
  - apply (proj1 (proj2 (create_argument_checks Ref.env (VInt 0) VNil
                            (Some "not a collection") Ref.baseline)) 0); reflexivity.
  - apply (proj2 (proj2 (create_argument_checks Ref.env (VInt 1) (VInt 7)
                            (Some "not a collection") Ref.baseline)) 1);
      [reflexivity|reflexivity|intros p; discriminate].
Defined.

Lemma destroy_absent_witness :
  kim_property_destroy Ref.env (Some (Ref.dumps [Ex.cohesive_1; Ex.atomic_mass_2]))
    (VInt 3) Ex.st_foo_a
  = (inr (kim_edn_dumps Ref.env [Ex.cohesive_1; Ex.atomic_mass_2]), Ex.st_foo_a).
Proof.
  apply destroy_absent.
  - apply ref_dumps_not_sentinel.
  - apply ref_loads_dumps.
  - repeat constructor; eexists; (split; [reflexivity|discriminate]).
Defined.

Lemma destroy_single_witness :
  kim_property_destroy Ref.env
    (Some (Ref.dumps [Ex.cohesive_1; Ex.atomic_mass_2; Ex.cohesive_3])) (VInt 2)
    Ref.baseline
  = (unset_property_id (VStr Ref.atomic_mass_id) ;;;
     ret (kim_edn_dumps Ref.env ([Ex.cohesive_1] ++ [Ex.cohesive_3]))) Ref.baseline.
Proof.
  apply (destroy_single Ref.env _ [Ex.cohesive_1] [Ex.cohesive_3] Ex.atomic_mass_2).
  - apply ref_dumps_not_sentinel.
  - apply ref_loads_dumps.
  - repeat constructor; eexists; (split; [reflexivity|discriminate]).
  - repeat constructor; eexists; (split; [reflexivity|discriminate]).
  - reflexivity.
  - reflexivity.
Defined.

(** ** Definitions shared by several instances *)

(** X15: the definition of a destroyed instance is unregistered without
    looking at the other instances.  In a state whose indices are
    consistent with the registry and whose new ids are registered, when
    exactly one record of the collection has the instance id and its
    property id is in the list of new ids, [kim_property_destroy] returns
    the other records, whatever property ids they carry (the same one
    included), and the id is in neither the registry nor the id index
    afterwards. *)
Theorem destroy_unregisters_referenced_definition (env : Env) (text : string)
    (l1 l2 : list record) (a : record) (z : Z) (pid : string) (st : State) :
  empty_sentinel text = false ->
  kim_edn_loads env text = Some (l1 ++ a :: l2) ->
  no_repeat (VInt z) l1 -> no_repeat (VInt z) l2 ->
  a !! "instance-id" = Some (VInt z) -> a !! "property-id" = Some (VStr pid) ->
  registry_consistent st -> dynamic_wf st -> dynamic st pid ->
  exists st',
    kim_property_destroy env (Some text) (VInt z) st
    = (inr (kim_edn_dumps env (l1 ++ l2)), st') /\
    kim_properties st' !! pid = None /\
    property_id_to_property_name st' !! pid = None.
Proof.
  intros Hs Hl H1 H2 Ha Hp Hc Hw Hd. pose proof Hd as (ids & Hids & Hin).
  destruct (dynamic_registered st Hw pid Hd) as [d Hk].
  destruct (proj2 (ids_registered st Hc pid)) as [n Hn]; [eauto|].
  exists (unset_state st pid n ids).
  unfold kim_property_destroy. unfold empty_sentinel in Hs. rewrite Hs, Hl.
  unfold bind at 1. rewrite (destroy_loop_single _ l1 a l2 (VStr pid)) by done.
  unfold bind, ret. rewrite (unset_removes pid n ids d); try done.
  - simpl. by rewrite !lookup_delete_eq.
  - exists pid. by apply (indices_inverse st Hc).
Qed.

Lemma destroy_unregisters_referenced_definition_witness :
  exists st',
    kim_property_destroy Ref.env (Some (Ref.dumps [Ex.volume_1; Ex.volume_3])) (VInt 1)
      Ex.st_volume
    = (inr (kim_edn_dumps Ref.env ([] ++ [Ex.volume_3])), st') /\
    kim_properties st' !! Ref.volume_id = None /\
    property_id_to_property_name st' !! Ref.volume_id = None.
Proof.
  apply (destroy_unregisters_referenced_definition Ref.env _ [] [Ex.volume_3] Ex.volume_1).
  - apply ref_dumps_not_sentinel.
  - apply ref_loads_dumps.
  - constructor.
  - repeat constructor; eexists; (split; [reflexivity|discriminate]).
  - reflexivity.
  - reflexivity.
  - apply registered_state_consistent.
    + exact ref_baseline_consistent.
    + compute_done.
    + compute_done.
  - apply registered_state_wf; [exact ref_baseline_wf|compute_done].
  - exists [Ref.volume_id]. split; [reflexivity|apply list_elem_of_here].
Defined.
